(** * Risk assessment: score calculator, advice composer and section orderer

    A shallow embedding of [src/components/risk-assessment-form.tsx]
    ([calculateRiskScore], [getRiskStatus], [generateAdvice]) and of
    [src/components/risk-result.tsx] ([renderAdviceSection]: the section
    parser, [getDisplayOrder] and the sort), with the properties the
    specification states about them.

    Conventions of the embedding.
    - A JavaScript string is the list of its UTF-16 code units ([jsstring]).
      The literals of the source are written as UTF-8 Rocq strings and
      decoded by [utf16]; a line feed inside a literal is the one of the
      template.
    - The numeric form fields are integers ([Z]), as the specification has
      them; a quotient is taken in [Q], so [Math.round] and [Math.ceil] are
      exact. The code divides Numbers: where the scaled quotient is within a
      rounding error of a half it can round to the other side (savings
      652500, income 100000, family of 3: 72 in the code, 73 here), and a
      division by [monthlyIncome * familyCount = 0], which the schema of the
      form keeps out, gives 0 here. The properties of the score rest on the
      clamps, on the order and on values away from a half, not on how a
      quotient near a half is rounded.
    - [childrenCount] is read from a free text: it is the Number [parseInt]
      returns, an integer rounded to 53 bits or [+Infinity].
    - [String.prototype.toLowerCase] and [Number.prototype.toLocaleString]
      belong to the host (Unicode tables, host locale): they are Variables of
      the section, and what the program relies on is stated as Hypotheses.
      [asciiLowerCase] and [groupedDecimal] are instances that meet them.
    - [calculateRiskScore] and [generateAdvice] read the family text, the
      flag, the age and the savings from the form: the form values are an
      explicit argument.

    The file has the definitions first (strings, texts, the two components,
    the statements of the specification), then the properties. *)

From Stdlib Require Import List String Ascii Bool.
From Stdlib Require Import NArith ZArith QArith Qround Qabs Lia.
From Stdlib Require Import Sorted Permutation.
Import ListNotations.

Local Open Scope Z_scope.

(* ================================================================= *)
(** ** JavaScript strings *)

Definition jsstring := list N.

(** Decoder of the UTF-8 literals of the source files into code units
    (a code point above the BMP becomes a surrogate pair). *)
Fixpoint utf16 (s : string) : jsstring :=
  match s with
  | EmptyString => []
  | String a r =>
    let b0 := N_of_ascii a in
    if (b0 <? 128)%N then b0 :: utf16 r
    else if (b0 <? 224)%N then
      match r with
      | String a1 r1 =>
        ((b0 mod 32) * 64 + N_of_ascii a1 mod 64)%N :: utf16 r1
      | _ => [65533%N]
      end
    else if (b0 <? 240)%N then
      match r with
      | String a1 (String a2 r2) =>
        ((b0 mod 16) * 4096 + (N_of_ascii a1 mod 64) * 64
         + N_of_ascii a2 mod 64)%N :: utf16 r2
      | _ => [65533%N]
      end
    else
      match r with
      | String a1 (String a2 (String a3 r3)) =>
        let cp := ((b0 mod 8) * 262144 + (N_of_ascii a1 mod 64) * 4096
                   + (N_of_ascii a2 mod 64) * 64 + N_of_ascii a3 mod 64)%N in
        (55296 + (cp - 65536) / 1024)%N
          :: (56320 + (cp - 65536) mod 1024)%N :: utf16 r3
      | _ => [65533%N]
      end
  end.

Definition unit_eqb (a b : N) : bool := N.eqb a b.

(** [s.startsWith(p)] and [s.includes(sub)]. *)
Fixpoint startsWith (s p : jsstring) {struct p} : bool :=
  match p with
  | [] => true
  | a :: p' =>
    match s with
    | [] => false
    | b :: s' => unit_eqb a b && startsWith s' p'
    end
  end.

Fixpoint includes (s sub : jsstring) : bool :=
  startsWith s sub ||
  match s with
  | [] => false
  | _ :: r => includes r sub
  end.

(** The class [\d] of a regular expression without the [u] flag: 0-9. *)
Definition isDigit (c : N) : bool := ((48 <=? c) && (c <=? 57))%N.

(** [s.match(/\d+/g)]: the maximal digit runs from left to right, [None]
    (JavaScript [null]) when there is none. [cur] is the run being read. *)
Fixpoint digitRuns (cur s : jsstring) : list jsstring :=
  match s with
  | [] => match cur with [] => [] | _ => [cur] end
  | c :: r =>
    if isDigit c then digitRuns (cur ++ [c]) r
    else match cur with
         | [] => digitRuns [] r
         | _ => cur :: digitRuns [] r
         end
  end.

Definition String_match_digits (s : jsstring) : option (list jsstring) :=
  match digitRuns [] s with
  | [] => None
  | runs => Some runs
  end.

(** A Number that holds an integer, or [+Infinity]: the values
    [childrenCount] takes. *)
Inductive IntegralNumber :=
| Finite (n : Z)
| Infinity.

(** The Number value for an integer [n >= 0]: [n] itself up to 2^53; beyond,
    the nearest integer with a significand of 53 bits, a tie going to the
    even significand; [+Infinity] when that reaches 2^1024. *)
Definition Number_of_integer (n : Z) : IntegralNumber :=
  let e := Z.log2 n - 52 in
  if e <=? 0 then Finite n
  else
    let q := Z.shiftr n e in
    let r := Z.land n (Z.ones e) in
    let half := Z.shiftl 1 (e - 1) in
    let significand :=
      if r <? half then q
      else if half <? r then q + 1
      else if Z.even q then q else q + 1 in
    let v := Z.shiftl significand e in
    if v <? 2 ^ 1024 then Finite v else Infinity.

(** [parseInt(run, 10)] on a run of digits: the integer the digits denote,
    then the Number value for it. (An engine may drop the digits after the
    20th; V8 keeps them.) *)
Definition digitValue (c : N) : Z := Z.of_N c - 48.

Definition mathInt (run : jsstring) : Z :=
  fold_left (fun acc c => 10 * acc + digitValue c) run 0.

Definition parseInt10 (run : jsstring) : IntegralNumber :=
  Number_of_integer (mathInt run).

(** [Math.min(a, b)] and [a <= b] with an integer or [+Infinity] for [b]. *)
Definition Math_min (a : Z) (b : IntegralNumber) : Z :=
  match b with
  | Finite n => Z.min a n
  | Infinity => a
  end.

Definition Number_le (a b : IntegralNumber) : Prop :=
  match a, b with
  | Finite x, Finite y => x <= y
  | _, Infinity => True
  | Infinity, Finite _ => False
  end.

(** [Math.round] (half up) and [Math.ceil]. *)
Definition Math_round (q : Q) : Z := Qfloor (q + (1 # 2)).
Definition Math_ceil (q : Q) : Z := Qceiling q.

Definition Q_lt (a b : Q) : bool := negb (Qle_bool b a).
Definition Q_ge (a b : Q) : bool := Qle_bool b a.

(** An instance of [toLowerCase]: the ASCII letters, every other code unit
    left in place. *)
Definition asciiLowerUnit (c : N) : N :=
  if ((65 <=? c) && (c <=? 90))%N then (c + 32)%N else c.

Definition asciiLowerCase (s : jsstring) : jsstring := map asciiLowerUnit s.

(** Code units without case, and in the image of no case mapping: digits,
    kana and the CJK unified ideographs. Every marker the program looks for
    is made of them. *)
Definition isCaseless (c : N) : bool :=
  (isDigit c
   || ((12352 <=? c) && (c <=? 12543))
   || ((19968 <=? c) && (c <=? 40959)))%N.

(** WhiteSpace and LineTerminator code units, the ones [trim] strips. *)
Definition isLineTerminator (c : N) : bool :=
  ((c =? 10) || (c =? 13) || (c =? 8232) || (c =? 8233))%N.

Definition isWhiteSpace (c : N) : bool :=
  ((c =? 9) || (c =? 11) || (c =? 12) || (c =? 32) || (c =? 160)
   || (c =? 5760) || ((8192 <=? c) && (c <=? 8202)) || (c =? 8239)
   || (c =? 8287) || (c =? 12288) || (c =? 65279)
   || isLineTerminator c)%N.

Fixpoint trimStart (s : jsstring) : jsstring :=
  match s with
  | [] => []
  | c :: r => if isWhiteSpace c then trimStart r else s
  end.

Definition trimEnd (s : jsstring) : jsstring := rev (trimStart (rev s)).

Definition trim (s : jsstring) : jsstring := trimEnd (trimStart s).

(** [parts.join(sep)]. *)
Fixpoint join (sep : jsstring) (parts : list jsstring) : jsstring :=
  match parts with
  | [] => []
  | [x] => x
  | x :: r => x ++ sep ++ join sep r
  end.

(** The decimal digits of an integer, [String(n)] on an integer below 1e21. *)
Fixpoint digitsOfUint (d : Decimal.uint) : jsstring :=
  match d with
  | Decimal.Nil => []
  | Decimal.D0 d => 48%N :: digitsOfUint d
  | Decimal.D1 d => 49%N :: digitsOfUint d
  | Decimal.D2 d => 50%N :: digitsOfUint d
  | Decimal.D3 d => 51%N :: digitsOfUint d
  | Decimal.D4 d => 52%N :: digitsOfUint d
  | Decimal.D5 d => 53%N :: digitsOfUint d
  | Decimal.D6 d => 54%N :: digitsOfUint d
  | Decimal.D7 d => 55%N :: digitsOfUint d
  | Decimal.D8 d => 56%N :: digitsOfUint d
  | Decimal.D9 d => 57%N :: digitsOfUint d
  end.

Definition numberToString (z : Z) : jsstring :=
  match Z.to_int z with
  | Decimal.Pos d => digitsOfUint d
  | Decimal.Neg d => 45%N :: digitsOfUint d
  end.

(** An instance of [toLocaleString]: the rendering of the ja-JP and en-US
    locales, groups of three digits separated by commas and at most three
    fraction digits. *)
Fixpoint groupDigits (ds : jsstring) : jsstring :=
  match ds with
  | [] => []
  | c :: r =>
    match r with
    | [] => [c]
    | _ => if (List.length r mod 3 =? 0)%nat then c :: 44%N :: groupDigits r
           else c :: groupDigits r
    end
  end.

Definition fractionDigits (f : Z) : jsstring :=
  if f =? 0 then []
  else
    let d1 := f / 100 in
    let d2 := (f / 10) mod 10 in
    let d3 := f mod 10 in
    46%N :: numberToString d1
      ++ (if (d2 =? 0) && (d3 =? 0) then []
          else numberToString d2 ++ (if d3 =? 0 then [] else numberToString d3)).

Definition groupedDecimal (q : Q) : jsstring :=
  let thousandths := Math_round (Qabs q * 1000) in
  let body := groupDigits (numberToString (thousandths / 1000))
              ++ fractionDigits (thousandths mod 1000) in
  if Q_lt q 0 then 45%N :: body else body.

(** The brackets of a section marker and the line feed. *)
Definition openBracket : N := 12304%N.
Definition closeBracket : N := 12305%N.
Definition nl : N := 10%N.

(** The template literal [`\n【title】\nbody`]. *)
Definition block (title body : jsstring) : jsstring :=
  nl :: openBracket :: title ++ closeBracket :: nl :: body.

(* ================================================================= *)
(** ** The form values *)

Record FormValues := mkForm {
  familyStructure : jsstring;
  familyCount : Z;
  hasChildren : bool;
  age : Z;
  savings : Z;
  monthlyIncome : Z
}.

(** The input contract (the zod schema of the form). *)
Definition validInput (v : FormValues) : Prop :=
  1 <= v.(familyCount) /\ 1 <= v.(monthlyIncome) /\ 0 <= v.(savings)
  /\ (v.(age) = 0 \/ 18 <= v.(age) <= 100).

(* ================================================================= *)
(** ** The texts of generateAdvice

    The titles and bodies of the template literals of [generateAdvice], in
    the order of the source. A getter returns the literal
    [`\n【title】\nbody`], see [block]. *)

Definition ageTitle20 : jsstring := utf16 "20代のあなたへ".

Definition ageBody20 : jsstring := utf16
"あなたの若さは最大の武器です！未来は無限の可能性に満ちています。

・20代は失敗してもリカバリーできる貴重な時期です。思い切ったチャレンジができるのは今です。
・デジタルネイティブとしての感覚やトレンドへの敏感さは、ビジネスにおいて大きな強みになります。
・今から経験を積むことで、30代、40代での飛躍的な成長につながります。
・若い起業家は投資家からも注目されやすく、支援を受けやすい傾向があります。
・エネルギーと柔軟性を活かして、新しい市場やニッチを開拓できるチャンスです。

あなたの行動力と新鮮な視点は、既存の市場に革新をもたらす可能性を秘めています！".

Definition ageTitle30 : jsstring := utf16 "30代のあなたへ".

Definition ageBody30 : jsstring := utf16
"30代は経験と若さのバランスが取れた最高の時期です！

・30代は専門性と実務経験が蓄積され始め、起業に最適な時期と言われています。
・若さとスタミナを持ちながらも、業界の知識や人脈が形成されている絶妙なバランスです。
・家族形成期でもあり、長期的な視点でビジネスを考えられる時期です。
・失敗からの学びを活かせる柔軟性と、安定を求める責任感のバランスが取れています。
・あなたの実務経験は、起業における現実的な判断力の基盤になります。

あなたのキャリアで培った専門知識と若さのエネルギーは、成功への強力な推進力になるでしょう！".

Definition ageTitle40 : jsstring := utf16 "40代のあなたへ".

Definition ageBody40 : jsstring := utf16
"40代は経験と人脈が充実した、起業の黄金期です！

・40代はこれまでのキャリアで培った専門知識と人脈が最大限に活きる時期です。
・業界での信頼関係がすでに構築されており、初期顧客の獲得がスムーズです。
・マネジメント経験があれば、チームビルディングやリーダーシップのスキルが大きな強みになります。
・人生経験から来る判断力と冷静さは、ビジネスの安定成長に不可欠な要素です。
・家族や周囲の理解も得やすく、サポート体制を整えやすい時期です。

あなたの豊富な経験と人脈は、起業成功への最短ルートを切り開くでしょう！".

Definition ageTitle50 : jsstring := utf16 "50代のあなたへ".

Definition ageBody50 : jsstring := utf16
"50代は知恵と経験が満ち溢れた、起業の成熟期です！

・50代は長年のキャリアで培った深い専門知識と広範な人脈が最大の武器になります。
・業界の課題や顧客ニーズを熟知しており、的確なソリューションを提供できる立場です。
・財務的にも比較的余裕がある時期で、リスクに対する耐性が高まっています。
・豊富な人生経験からくる冷静な判断力と問題解決能力は、ビジネスの安定と成長に直結します。
・若手起業家のメンターとしての役割も果たせる、社会的価値の高い立場です。

あなたの豊かな経験と知恵は、持続可能なビジネスを構築する強固な基盤となるでしょう！".

Definition ageTitle60 : jsstring := utf16 "60代以上のあなたへ".

Definition ageBody60 : jsstring := utf16
"60代以上は知識と知恵の集大成、セカンドライフの新たな挑戦の時です！

・60代以上は長年培った専門知識、人脈、人生経験が結実する素晴らしい時期です。
・時間的な余裕があり、自分の情熱を注げる事業に取り組める絶好のチャンスです。
・豊富な人生経験と冷静な判断力は、安定したビジネス運営の鍵となります。
・若い世代にはない視点や知恵を活かした、ユニークなビジネスモデルを構築できます。
・社会貢献や価値創造など、経済的成功だけでない多様な目標を設定できる自由があります。
・デジタル技術と従来の知恵を組み合わせた、世代を超えたイノベーションを起こせる立場です。

あなたの豊かな経験と知恵は、社会に新たな価値をもたらす貴重な資産です！".

Definition familyTitleChildren : jsstring := utf16 "子育て世帯向けアドバイス".

Definition familyBodyChildren : jsstring := utf16
"・子供がいる家庭では、教育費や将来の進学費用も考慮した資金計画が重要です。
・起業は子供に「チャレンジする姿」を見せる貴重な機会でもあります。
・子供の将来のためにも、あなたが情熱を持って取り組める仕事を選ぶことは大切です。
・起業初期は在宅や時間の融通が利く働き方ができるため、子育てとの両立がしやすくなる場合もあります。
・家族の理解と協力を得るために、起業計画や将来のビジョンを共有しましょう。
・子育て世帯向けの公的支援制度（児童手当、医療費助成など）も活用して、固定費を抑える工夫をしましょう。
・同じく子育て中の起業家とのネットワークを構築し、情報交換や相互支援の関係を作ることも有効です。".

Definition familyTitleFamily : jsstring := utf16 "家族構成に応じたアドバイス".

Definition familyBodyFamily : jsstring := utf16
"・家族がいる場合は、生命保険や医療保険の見直しを行いましょう。
・家族と起業についてオープンに話し合い、理解と協力を得ることが重要です。
・家族の将来のライフプランも考慮した資金計画を立てましょう。
・配偶者の収入がある場合は、一時的に家計の主な支え手になってもらうことも検討できます。
・家族の健康保険や社会保険の切り替えについても事前に調査しておきましょう。".

Definition familyTitleSingle : jsstring := utf16 "単身者向けアドバイス".

Definition familyBodySingle : jsstring := utf16
"・単身の場合は、リスクを取りやすい状況にあります。この機会を最大限に活かしましょう。
・生活コストを見直し、固定費の削減ポイントを探してみましょう。
・万が一の事態に備えた医療保険の加入を検討しましょう。
・単身であることを活かして、起業初期は生活コストを最小限に抑えることも検討できます。
・将来的なライフプランの変化（結婚、家族形成など）も視野に入れた長期的な事業計画を立てましょう。".

Definition incomeBodyLow : jsstring := utf16
"・現在の月収は比較的低めですが、起業によって収入を増やせる可能性があります。
・まずは副業として小規模に始め、月5万円の副収入から作りましょう。
・スキルアップに投資し、提供できるサービスの価値を高めることを優先してください。
・初期投資を最小限に抑えたビジネスモデル（オンラインサービス、コンサルティングなど）から始めましょう。
・固定費を徹底的に見直し、生活防衛資金を少しずつ増やしていきましょう。".

Definition incomeBodyMedium : jsstring := utf16
"・現在の月収は平均的で、起業の基盤としては良いスタートポイントです。
・本業を続けながら、週末や平日夜に副業として事業を始め、月10〜15万円の副収入を目指しましょう。
・副業収入が本業の半分に達したら、独立を検討するタイミングかもしれません。
・あなたのスキルや経験を活かせる分野で、差別化できるサービスを考えましょう。
・本業で培った人脈やスキルを最大限に活用し、初期顧客の獲得に繋げましょう。".

Definition incomeBodyHigh : jsstring := utf16
"・現在の月収は高めで、起業のための良い資金基盤があります。
・高収入を活かして、積極的に事業資金を確保しましょう。
・あなたの専門性を活かした高単価サービスの提供を検討してください。
・必要に応じて従業員やフリーランスを雇用し、早期にビジネスを拡大する戦略も有効です。
・高収入の経験を活かして、ターゲット顧客を明確にし、プレミアムサービスの提供を検討しましょう。
・投資や資産運用も並行して行い、複数の収入源を確保することをおすすめします。".

Definition incomeTitle : jsstring := utf16 "月収に応じたアドバイス".

Definition encouragementBodyHighest : jsstring := utf16
"子育てしながらの起業は確かに挑戦ですが、多くの成功例があります。子供の存在がモチベーションとなり、効率的な働き方を模索するきっかけにもなります。まずは副業から始めて、少しずつリスクを減らしながら前進しましょう。子供に「夢を追いかける親」の姿を見せることは、何物にも代えがたい教育です。

あなたの情熱とアイデアは、新しい価値を生み出す原動力です。起業は人生を変える大きなチャンスです。一歩踏み出す勇気を持ちましょう！".

Definition encouragementBodyHigh : jsstring := utf16
"家族がいることで慎重になるのは自然なことですが、それが夢を諦める理由にはなりません。むしろ、家族の存在が長期的な視点と責任感を育み、ビジネスの安定性につながることもあります。計画的に進めれば、家族の理解と協力を得ながら、着実に夢を実現できるでしょう。

今こそ行動するときです。あなたのスキルと経験は、独自のビジネスを成功させる大きな武器になります。自分の可能性を信じて、一歩前に踏み出しましょう！".

Definition encouragementBodyChildren : jsstring := utf16
"子育てと起業の両立は、時間管理と優先順位付けの達人になるチャンスです。多くの親起業家が、子供の存在によって効率的な働き方を学び、むしろ成功につなげています。子供に「自分の人生を自分で切り拓く」生き方を見せることは、最高の教育になるでしょう。

あなたの夢を追いかける姿は、子供たちにとって最高のロールモデルになります。今日から小さな一歩を踏み出し、その一歩を積み重ねていきましょう！".

Definition encouragementBodyDefault : jsstring := utf16
"起業は不安もありますが、自分の情熱を仕事にできる素晴らしいチャンスです。あなたのアイデアやスキルは、世界に新しい価値をもたらす可能性を秘めています。

人生は一度きり。「やらなかった後悔」より「やった経験」の方が、あなたを成長させてくれます。今日から小さな一歩を踏み出し、あなたの夢に向かって進んでいきましょう！".

Definition encouragementTitle : jsstring := utf16 "あなたへの特別なメッセージ".

Definition lowSavingsChildrenAdvice : jsstring := utf16
"・子育て中でも始められる、時間や場所に縛られない副業（ブログ執筆、オンラインコンサルティング、デジタル商品販売など）を検討しましょう。
・子供の寝ている時間や保育園・学校に行っている時間を活用して、少しずつビジネスを構築していきましょう。
・配偶者と協力して時間を確保する方法を話し合いましょう。".

Definition careerChildrenAdvice : jsstring := utf16
"・子供の将来のためにも、親が自分の夢に挑戦する姿を見せることは、大きな教育的価値があります。
・起業家として成功すれば、子供の教育資金や将来の選択肢を広げるための経済的基盤を築けます。
・会社員よりも柔軟な働き方ができるため、子供の行事や緊急時にも対応しやすくなります。".

Definition lowSavingsTitle : jsstring := utf16 "貯蓄が少なくても大丈夫".

Definition careerTitle : jsstring := utf16 "サラリーマンも安泰ではない".

Definition careerBody : jsstring := utf16
"・終身雇用の崩壊、AI台頭による仕事の変化など、サラリーマンにも大きなリスクがあります。
・会社員は「一つの会社」に依存するリスクがありますが、起業家は「複数の顧客」に支えられる強みがあります。
・起業は自分の力で未来を切り開ける可能性があり、同じリスクを取るなら自分の夢に賭ける方が充実感も大きいでしょう。
・会社員時代に培ったスキルや人脈は、起業後も大きな資産になります。".

Definition stepsTitle : jsstring := utf16 "具体的な行動ステップ".

Definition fundingTitle : jsstring := utf16 "資金目標".

Definition incomeStepsLow : list jsstring :=
  [ utf16 "最小限の初期投資で始められるビジネスモデルを選ぶ";
    utf16 "スキルアップのためのオンライン学習に投資する";
    utf16 "SNSを活用した無料マーケティングから始める" ].

Definition incomeStepsMedium : list jsstring :=
  [ utf16 "本業と副業のバランスを取りながら、段階的に移行する計画を立てる";
    utf16 "初期顧客獲得のために、既存の人脈を活用する";
    utf16 "月次で収支を分析し、事業の採算性を確認する" ].

Definition incomeStepsHigh : list jsstring :=
  [ utf16 "専門性を活かした高単価サービスの開発に注力する";
    utf16 "必要に応じて外部人材を活用し、早期にビジネスを拡大する";
    utf16 "事業と資産運用の両面から収入源を多様化する" ].

Definition childrenStepsYes : list jsstring :=
  [ utf16 "子育てと両立できる柔軟な働き方を事業計画に組み込む";
    utf16 "家族の時間を確保するためのタイムマネジメント戦略を立てる";
    utf16 "子育て世帯向けの支援制度や税制優遇を調査し活用する" ].

Definition ageSteps20 : list jsstring :=
  [ utf16 "若手起業家向けのコミュニティやイベントに積極的に参加する";
    utf16 "メンターを見つけて定期的にアドバイスを受ける";
    utf16 "デジタルスキルを最大限に活用したビジネスモデルを検討する" ].

Definition ageSteps30 : list jsstring :=
  [ utf16 "これまでのキャリアで培った専門知識を活かせる分野を選ぶ";
    utf16 "仕事と家庭のバランスを考慮した事業計画を立てる";
    utf16 "同世代の起業家ネットワークを構築する" ].

Definition ageSteps40 : list jsstring :=
  [ utf16 "長年の業界経験を活かした差別化戦略を立てる";
    utf16 "既存の人脈を活用して初期顧客を獲得する";
    utf16 "若手人材の採用・育成計画を検討する" ].

Definition ageSteps50 : list jsstring :=
  [ utf16 "豊富な経験と知識を活かしたコンサルティングやメンタリングを検討する";
    utf16 "ワークライフバランスを重視した事業設計を行う";
    utf16 "デジタル技術を活用して効率的なビジネスモデルを構築する" ].

Definition commonSteps : list jsstring :=
  [ utf16 "収支管理アプリで毎月の支出を可視化する";
    utf16 "起業後の事業計画書を作成し、必要資金を明確にする";
    utf16 "起業仲間やメンターを見つけて定期的に相談する" ].

Section Assessment.

Variable toLowerCase : jsstring -> jsstring.
Variable toLocaleString : Q -> jsstring.

(* ================================================================= *)
(** ** calculateRiskScore *)

(** Lines 96-100: the derived [hasChildren]. *)
Definition score_hasChildren (form : FormValues) : bool :=
  let familyStructure := toLowerCase form.(familyStructure) in
  form.(hasChildren)
  || includes familyStructure (utf16 "子")
  || includes familyStructure (utf16 "こども")
  || includes familyStructure (utf16 "子供").

(** Lines 103-116: [childrenCount]. *)
Definition score_childrenCount (form : FormValues) (familyCount : Z)
  : IntegralNumber :=
  let familyStructure := toLowerCase form.(familyStructure) in
  let hasChildren := score_hasChildren form in
  if hasChildren then
    match String_match_digits familyStructure with
    | Some (first :: _) => parseInt10 first
    | _ =>
      Finite (Z.max 1 (familyCount -
                       (if includes familyStructure (utf16 "妻")
                           || includes familyStructure (utf16 "夫")
                           || includes familyStructure (utf16 "配偶者")
                        then 2 else 1)))
    end
  else Finite 0.

(** Lines 131-147: [ageBonus]. *)
Definition ageBonusOf (userAge : Z) : Z :=
  if userAge <? 30 then 15
  else if userAge <? 40 then 10
  else if userAge <? 50 then 8
  else if userAge <? 60 then 5
  else 3.

(** Lines 169-182: [incomeBonus]. *)
Definition incomeBonusOf (monthlyIncome : Z) : Z :=
  if monthlyIncome >=? 500000 then 10
  else if monthlyIncome >=? 300000 then 7
  else if monthlyIncome >=? 200000 then 5
  else 3.

(** Lines 185-199: [savingsBonus]. *)
Definition savingsBonusOf (savings monthlyIncome familyCount : Z) : Z :=
  let sixMonthsCost := inject_Z (monthlyIncome * familyCount * 6) in
  if Q_ge (inject_Z savings) sixMonthsCost then 10
  else if Q_ge (inject_Z savings) (sixMonthsCost / 2) then 7
  else if Q_ge (inject_Z savings) (sixMonthsCost / 4) then 5
  else 2.

(** Lines 121-128: the scaled base score with its floor of 40. The
    quotient is exact, see the conventions. *)
Definition scaledScoreOf (savings monthlyIncome familyCount : Z) : Z :=
  let baseScore := (inject_Z savings / inject_Z (monthlyIncome * familyCount))%Q in
  let scaledScore := Z.min (Math_round ((baseScore * 100) / 3)) 100 in
  Z.max 40 scaledScore.

(** Lines 150-166: [familyAdjustment] and the [scaledScore] it leaves. *)
Definition familyStep (hasChildren : bool) (childrenCount : IntegralNumber)
  (familyCount : Z) (scaledScore : Z) : Z * Z :=
  if hasChildren then
    let familyAdjustment := -5 * Math_min 3 childrenCount in
    let minScoreWithChildren := 65 - 5 * Math_min 3 childrenCount in
    (familyAdjustment, Z.max minScoreWithChildren (scaledScore + familyAdjustment))
  else if familyCount >? 1 then (5, scaledScore)
  else (10, scaledScore).

(** Lines 118-202: [finalScore] as first assigned, before the no-children
    floor and the clamp at 100. [form.getValues().age || 35] is 35 when the
    age is 0. *)
Definition score_beforeFloor (form : FormValues)
  (savings monthlyIncome familyCount : Z) : Z :=
  let hasChildren := score_hasChildren form in
  let childrenCount := score_childrenCount form familyCount in
  let userAge := if form.(age) =? 0 then 35 else form.(age) in
  let scaledScore := scaledScoreOf savings monthlyIncome familyCount in
  let ageBonus := ageBonusOf userAge in
  let '(familyAdjustment, scaledScore) :=
    familyStep hasChildren childrenCount familyCount scaledScore in
  let incomeBonus := incomeBonusOf monthlyIncome in
  let savingsBonus := savingsBonusOf savings monthlyIncome familyCount in
  scaledScore + ageBonus + familyAdjustment + incomeBonus + savingsBonus.

(** Lines 94-214. *)
Definition calculateRiskScore (form : FormValues)
  (savings monthlyIncome familyCount : Z) : Z :=
  let hasChildren := score_hasChildren form in
  let finalScore := score_beforeFloor form savings monthlyIncome familyCount in
  let finalScore := if negb hasChildren then Z.max 80 finalScore else finalScore in
  let finalScore := Z.min 100 finalScore in
  Math_round (inject_Z finalScore).

(** Lines 217-222. *)
Definition getRiskStatus (score : Z) : jsstring :=
  if score <=? 40 then utf16 "検討段階"
  else if score <=? 70 then utf16 "準備OK"
  else utf16 "絶好のタイミング".

(* ================================================================= *)
(** ** generateAdvice *)

Inductive Level := low | medium | high.

Inductive RiskProfile := highest | highRisk | mediumRisk | lowRisk.

Definition Level_eqb (a b : Level) : bool :=
  match a, b with
  | low, low | medium, medium | high, high => true
  | _, _ => false
  end.

(** Lines 234-237: the derived [hasChildren] of [generateAdvice]. *)
Definition advice_hasChildren (form : FormValues) : bool :=
  let familyStructure := toLowerCase form.(familyStructure) in
  form.(hasChildren)
  || includes familyStructure (utf16 "子")
  || includes familyStructure (utf16 "こども")
  || includes familyStructure (utf16 "子供").

Definition getIncomeLevel (income : Z) : Level :=
  if income <? 250000 then low
  else if income <? 500000 then medium
  else high.

Definition getSavingsLevel (savings targetAmount : Z) : Level :=
  let ratio := (inject_Z savings / inject_Z targetAmount)%Q in
  if Q_lt ratio (1 # 2) then low
  else if Q_lt ratio 1 then medium
  else high.

Definition getRiskProfile (hasChildren : bool) (savingsLevel incomeLevel : Level)
  : RiskProfile :=
  if hasChildren && Level_eqb savingsLevel low && Level_eqb incomeLevel low
  then highest
  else if hasChildren
          && (negb (Level_eqb savingsLevel high) || negb (Level_eqb incomeLevel high))
  then highRisk
  else if negb hasChildren && Level_eqb savingsLevel low && Level_eqb incomeLevel low
  then mediumRisk
  else if Level_eqb savingsLevel high && Level_eqb incomeLevel high
  then lowRisk
  else mediumRisk.

(** Lines 283-349. [!userAge || userAge === 0] is [userAge = 0] on integers. *)
Definition getAgeBasedAdvice (form : FormValues) : jsstring :=
  let userAge := form.(age) in
  if userAge =? 0 then []
  else if userAge <? 30 then block ageTitle20 ageBody20
  else if userAge <? 40 then block ageTitle30 ageBody30
  else if userAge <? 50 then block ageTitle40 ageBody40
  else if userAge <? 60 then block ageTitle50 ageBody50
  else block ageTitle60 ageBody60.

(** Lines 352-361. *)
Definition getSavingsGoalAdvice (monthlyIncome savings targetAmount : Z)
  : jsstring :=
  let difference := targetAmount - savings in
  if difference <=? 0 then
    utf16 "すでに" ++ toLocaleString (inject_Z targetAmount)
    ++ utf16 "円の目標を達成しています。次のステップとして、事業資金の確保を検討しましょう。"
  else
    let monthsToSave :=
      Math_ceil (inject_Z difference / (inject_Z monthlyIncome * (2 # 10))) in
    utf16 "あと" ++ toLocaleString (inject_Z difference)
    ++ utf16 "円の貯蓄が必要です。月収の20%（"
    ++ toLocaleString (inject_Z monthlyIncome * (2 # 10))
    ++ utf16 "円）を貯蓄に回すと、約" ++ numberToString monthsToSave
    ++ utf16 "ヶ月で達成できます。".

(** Lines 364-391. *)
Definition getFamilyAdvice (hasChildren : bool) (familyCount : Z) : jsstring :=
  if hasChildren then block familyTitleChildren familyBodyChildren
  else if familyCount >? 1 then block familyTitleFamily familyBodyFamily
  else block familyTitleSingle familyBodySingle.

(** Lines 394-427. *)
Definition getIncomeBasedAdvice (incomeLevel : Level) : jsstring :=
  match incomeLevel with
  | low => block incomeTitle incomeBodyLow
  | medium => block incomeTitle incomeBodyMedium
  | high => block incomeTitle incomeBodyHigh
  end.

(** Lines 432-448: [incomeBasedSteps[incomeLevel]]. *)
Definition incomeBasedSteps (incomeLevel : Level) : list jsstring :=
  match incomeLevel with
  | low => incomeStepsLow
  | medium => incomeStepsMedium
  | high => incomeStepsHigh
  end.

(** Lines 458-487. The last bracket starts at 50. *)
Definition getAgeSteps (form : FormValues) : list jsstring :=
  let userAge := form.(age) in
  if userAge =? 0 then []
  else if userAge <? 30 then ageSteps20
  else if userAge <? 40 then ageSteps30
  else if userAge <? 50 then ageSteps40
  else ageSteps50.

(** [allSteps.map((step, index) => `${index + 1}. ${step}`)]. *)
Fixpoint numberSteps (index : Z) (steps : list jsstring) : list jsstring :=
  match steps with
  | [] => []
  | step :: r =>
    (numberToString (index + 1) ++ utf16 ". " ++ step) :: numberSteps (index + 1) r
  end.

(** Lines 430-502. *)
Definition allSteps (form : FormValues) (hasChildren : bool)
  (incomeLevel : Level) : list jsstring :=
  let childrenSteps := if hasChildren then childrenStepsYes else [] in
  let specificSteps := incomeBasedSteps incomeLevel in
  let ageSteps := getAgeSteps form in
  commonSteps ++ specificSteps ++ childrenSteps ++ ageSteps.

Definition stepsBody (form : FormValues) (hasChildren : bool)
  (incomeLevel : Level) : jsstring :=
  join [nl] (numberSteps 0 (allSteps form hasChildren incomeLevel)).

Definition getActionSteps (form : FormValues) (hasChildren : bool)
  (incomeLevel : Level) : jsstring :=
  block stepsTitle (stepsBody form hasChildren incomeLevel).

(** Lines 505-521. *)
Definition lowSavingsBody (hasChildren : bool) (incomeLevel : Level) : jsstring :=
  let childrenAdvice := if hasChildren then lowSavingsChildrenAdvice else [] in
  utf16 "・まずは本業を続けながら、週末や平日夜に副業として事業をスタートさせましょう。
・月に"
  ++ (if Level_eqb incomeLevel low then utf16 "5〜10万円"
      else if Level_eqb incomeLevel medium then utf16 "10〜15万円"
      else utf16 "15〜20万円")
  ++ utf16 "の副収入を作ることから始め、徐々に拡大していくことで、リスクを抑えられます。
・副業期間中に顧客基盤やスキルを構築できれば、独立時の不安も軽減できます。
・最初は投資を抑えたビジネスモデル（"
  ++ (if Level_eqb incomeLevel low then utf16 "個人サービス提供やオンラインコンテンツ販売"
      else if Level_eqb incomeLevel medium then utf16 "コンサルティングやコーチング"
      else utf16 "プレミアムコンサルティングや専門サービス")
  ++ utf16 "など）から始めるのも一つの方法です。"
  ++ [nl] ++ childrenAdvice.

Definition getLowSavingsAdvice (savings threeMonthsCost : Z)
  (hasChildren : bool) (incomeLevel : Level) : jsstring :=
  if savings <? threeMonthsCost
  then block lowSavingsTitle (lowSavingsBody hasChildren incomeLevel)
  else [].

(** Lines 524-537. *)
Definition careerComparisonBody (hasChildren : bool) : jsstring :=
  let childrenAdvice := if hasChildren then careerChildrenAdvice else [] in
  careerBody ++ [nl] ++ childrenAdvice.

Definition getCareerRiskComparison (hasChildren : bool) : jsstring :=
  block careerTitle (careerComparisonBody hasChildren).

(** Lines 540-566. *)
Definition encouragementBody (riskProfile : RiskProfile) (hasChildren : bool)
  : jsstring :=
  match riskProfile with
  | highest => encouragementBodyHighest
  | highRisk => encouragementBodyHigh
  | _ => if hasChildren then encouragementBodyChildren
         else encouragementBodyDefault
  end.

Definition getEncouragementMessage (riskProfile : RiskProfile)
  (hasChildren : bool) : jsstring :=
  block encouragementTitle (encouragementBody riskProfile hasChildren).

(** Lines 570-573: the body of the funding-goal block. *)
Definition fundingBody (monthlyIncome savings threeMonthsCost sixMonthsCost : Z)
  : jsstring :=
  utf16 "最低でも" ++ toLocaleString (inject_Z threeMonthsCost)
  ++ utf16 "円（3ヶ月分）の生活費を確保することをおすすめします。
理想的には" ++ toLocaleString (inject_Z sixMonthsCost)
  ++ utf16 "円（6ヶ月分）あれば、安心して起業に集中できます。"
  ++ [nl] ++ getSavingsGoalAdvice monthlyIncome savings threeMonthsCost.

(** Lines 225-585. The returned template, before [trim]. *)
Definition adviceTemplate (form : FormValues) (monthlyIncome familyCount : Z)
  : jsstring :=
  let sixMonthsCost := monthlyIncome * familyCount * 6 in
  let threeMonthsCost := monthlyIncome * familyCount * 3 in
  let savings := form.(savings) in
  let hasChildren := advice_hasChildren form in
  let incomeLevel := getIncomeLevel monthlyIncome in
  let savingsLevel := getSavingsLevel savings threeMonthsCost in
  let riskProfile := getRiskProfile hasChildren savingsLevel incomeLevel in
  block fundingTitle (fundingBody monthlyIncome savings threeMonthsCost sixMonthsCost)
  ++ [nl; nl]
  ++ getAgeBasedAdvice form
  ++ [nl; nl]
  ++ getIncomeBasedAdvice incomeLevel
  ++ [nl; nl]
  ++ getFamilyAdvice hasChildren familyCount
  ++ [nl]
  ++ getLowSavingsAdvice savings threeMonthsCost hasChildren incomeLevel
  ++ [nl]
  ++ getCareerRiskComparison hasChildren
  ++ [nl]
  ++ getEncouragementMessage riskProfile hasChildren
  ++ [nl]
  ++ getActionSteps form hasChildren incomeLevel
  ++ nl :: utf16 "    ".

Definition generateAdvice (form : FormValues) (monthlyIncome familyCount : Z)
  : jsstring :=
  trim (adviceTemplate form monthlyIncome familyCount).

(* ================================================================= *)
(** ** renderAdviceSection (risk-result.tsx) *)

Record AdviceSection := mkSection {
  title : jsstring;
  content : jsstring
}.

(** The regular expression [/【(.+?)】/] tried at the start of [s]: the
    capture and what follows the match. [.] is any code unit but a line
    terminator; the lazy [+?] stops at the first closing bracket after at
    least one unit. *)
Fixpoint lazyUntilClose (s : jsstring) : option (jsstring * jsstring) :=
  match s with
  | [] => None
  | c :: r =>
    if unit_eqb c closeBracket then Some ([], r)
    else if isLineTerminator c then None
    else match lazyUntilClose r with
         | Some (t, rest) => Some (c :: t, rest)
         | None => None
         end
  end.

Definition matchMarker (s : jsstring) : option (jsstring * jsstring) :=
  match s with
  | c0 :: c1 :: r =>
    if unit_eqb c0 openBracket && negb (isLineTerminator c1) then
      match lazyUntilClose r with
      | Some (t, rest) => Some (c1 :: t, rest)
      | None => None
      end
    else None
  | _ => None
  end.

(** [advice.split(/【(.+?)】/)]: the text before a match, the capture, and
    so on; the text after the last match closes the list. [skip] counts the
    code units of the current match still to pass, [acc] is the text since
    the last match. *)
Fixpoint splitFrom (skip : nat) (acc s : jsstring) : list jsstring :=
  match s with
  | [] => [acc]
  | c :: r =>
    match skip with
    | S k => splitFrom k acc r
    | O =>
      match matchMarker s with
      | Some (t, _) => acc :: t :: splitFrom (S (List.length t)) [] r
      | None => splitFrom O (acc ++ [c]) r
      end
    end
  end.

Definition String_split_marker (s : jsstring) : list jsstring :=
  splitFrom O [] s.

(** [.filter(Boolean)] on strings: the empty ones go. *)
Definition filterBoolean (l : list jsstring) : list jsstring :=
  filter (fun s => match s with [] => false | _ => true end) l.

(** Lines 43-50: the loop over pairs. *)
Fixpoint formatSections (sections : list jsstring) : list AdviceSection :=
  match sections with
  | t :: b :: r => mkSection t (trim b) :: formatSections r
  | _ => []
  end.

Definition parseSections (advice : jsstring) : list AdviceSection :=
  formatSections (filterBoolean (String_split_marker advice)).

(** Lines 74-93. [for (const key in orderMap)] visits the keys in the order
    they were written. *)
Definition orderMap : list (jsstring * Z) :=
  [ (utf16 "あなたへの特別", 1);
    (utf16 "資金目標", 2);
    (utf16 "月収に応じた", 3);
    (utf16 "子育て世帯向け", 4);
    (utf16 "家族構成", 4);
    (utf16 "単身者向け", 4);
    (utf16 "貯蓄が少なくても", 5);
    (utf16 "サラリーマン", 6);
    (utf16 "具体的な行動", 7) ].

Fixpoint firstMatch (title : jsstring) (table : list (jsstring * Z)) : Z :=
  match table with
  | [] => 99
  | (key, order) :: rest =>
    if includes title key then order else firstMatch title rest
  end.

Definition getDisplayOrder (title : jsstring) : Z := firstMatch title orderMap.

(** [Array.prototype.sort] with a comparator: the stable sort. An element
    stays ahead of the ones it does not compare greater than. *)
Fixpoint insertSorted {A : Type} (cmp : A -> A -> Z) (x : A) (l : list A)
  : list A :=
  match l with
  | [] => [x]
  | y :: r => if cmp x y <=? 0 then x :: l else y :: insertSorted cmp x r
  end.

Fixpoint Array_sort {A : Type} (cmp : A -> A -> Z) (l : list A) : list A :=
  match l with
  | [] => []
  | x :: r => insertSorted cmp x (Array_sort cmp r)
  end.

(** Lines 96-98. *)
Definition compareSections (a b : AdviceSection) : Z :=
  getDisplayOrder a.(title) - getDisplayOrder b.(title).

Definition sortedSections (advice : jsstring) : list AdviceSection :=
  Array_sort compareSections (parseSections advice).

(** Lines 60-71 of the form: what [onSubmit] hands to [RiskResult]. The
    values of the form are the ones [form.getValues()] returns. *)
Definition onSubmit (values : FormValues) : Z * jsstring * jsstring :=
  let familyCount := values.(familyCount) in
  let savings := values.(savings) in
  let monthlyIncome := values.(monthlyIncome) in
  let score := calculateRiskScore values savings monthlyIncome familyCount in
  let status := getRiskStatus score in
  let advice := generateAdvice values monthlyIncome familyCount in
  (score, status, advice).

(* ================================================================= *)
(** ** The rest of RiskResult (risk-result.tsx) *)

(** A lucide icon element: the component, its class and its React key. *)
Record Icon := mkIcon {
  iconName : jsstring;
  iconClass : jsstring;
  iconKey : option jsstring
}.

(** Lines 18-22. *)
Definition getStatusIcon (score : Z) : Icon :=
  if score <=? 40
  then mkIcon (utf16 "AlertTriangle") (utf16 "h-5 w-5 text-amber-500") None
  else if score <=? 70
  then mkIcon (utf16 "CheckCircle") (utf16 "h-5 w-5 text-emerald-500") None
  else mkIcon (utf16 "Rocket") (utf16 "h-5 w-5 text-blue-500") None.

(** Lines 24-28. *)
Definition getStatusDescription (score : Z) : jsstring :=
  if score <=? 40
  then utf16 "起業に向けて準備を始めるタイミングです。副業から始めて、徐々にステップアップしていきましょう。"
  else if score <=? 70
  then utf16 "起業の準備が整いつつあります。計画を具体化して、行動に移すタイミングです。"
  else utf16 "起業に最適なタイミングです！あなたの情熱とアイデアを形にするチャンスです。".

(** Lines 31-35. *)
Definition getProgressColor (score : Z) : jsstring :=
  if score <=? 40 then utf16 "bg-amber-500"
  else if score <=? 70 then utf16 "bg-emerald-500"
  else utf16 "bg-blue-500".

(** Lines 65-69: the icons of a title that matches no key. *)
Definition defaultIcons : list Icon :=
  [ mkIcon (utf16 "Info") (utf16 "h-5 w-5 text-blue-500") (Some (utf16 "info"));
    mkIcon (utf16 "BarChart") (utf16 "h-5 w-5 text-indigo-500") (Some (utf16 "chart"));
    mkIcon (utf16 "ListChecks") (utf16 "h-5 w-5 text-green-500") (Some (utf16 "list")) ].

(** Lines 53-71. [index] is an index of [sortedSections], never negative. *)
Definition getSectionIcon (title : jsstring) (index : nat) : Icon :=
  if includes title (utf16 "資金目標")
  then mkIcon (utf16 "Info") (utf16 "h-5 w-5 text-blue-500") None
  else if includes title (utf16 "月収に応じた")
  then mkIcon (utf16 "DollarSign") (utf16 "h-5 w-5 text-emerald-500") None
  else if includes title (utf16 "子育て世帯向け")
  then mkIcon (utf16 "Heart") (utf16 "h-5 w-5 text-pink-500") None
  else if includes title (utf16 "家族構成")
  then mkIcon (utf16 "AlertCircle") (utf16 "h-5 w-5 text-orange-500") None
  else if includes title (utf16 "単身者向け")
  then mkIcon (utf16 "AlertCircle") (utf16 "h-5 w-5 text-orange-500") None
  else if includes title (utf16 "貯蓄が少なくても")
  then mkIcon (utf16 "Lightbulb") (utf16 "h-5 w-5 text-yellow-500") None
  else if includes title (utf16 "サラリーマン")
  then mkIcon (utf16 "Briefcase") (utf16 "h-5 w-5 text-purple-500") None
  else if includes title (utf16 "具体的な行動")
  then mkIcon (utf16 "ListChecks") (utf16 "h-5 w-5 text-green-500") None
  else if includes title (utf16 "あなたへの特別")
  then mkIcon (utf16 "MessageCircle") (utf16 "h-5 w-5 text-rose-500") None
  else nth (index mod List.length defaultIcons) defaultIcons
           (mkIcon [] [] None).

(** Lines 101-116: what [renderSection] shows of a section. The highlight
    stands for the rose classes of the box, the heading and the text; the
    separator follows every section but the last. *)
Record SectionView := mkView {
  viewKey : nat;
  viewHighlight : bool;
  viewIcon : Icon;
  viewTitle : jsstring;
  viewContent : jsstring;
  viewSeparator : bool
}.

Definition renderSection (count : nat) (section : AdviceSection) (index : nat)
  : SectionView :=
  let isSpecialMessage := includes section.(title) (utf16 "あなたへの特別") in
  mkView index isSpecialMessage (getSectionIcon section.(title) index)
         section.(title) section.(content)
         (index <? count - 1)%nat.

(** [sortedSections.map((section, index) => renderSection(section, index))]. *)
Fixpoint mapIndexed {A B : Type} (f : A -> nat -> B) (index : nat) (l : list A)
  : list B :=
  match l with
  | [] => []
  | x :: r => f x index :: mapIndexed f (S index) r
  end.

(** Lines 38-123. *)
Definition renderAdviceSection (advice : jsstring) : list SectionView :=
  let sorted := sortedSections advice in
  mapIndexed (renderSection (List.length sorted)) O sorted.

(* ================================================================= *)
(** ** The rest of the form (risk-assessment-form.tsx) *)

(** Lines 604-611: the [onChange] of the family field. [field.onChange]
    stores the text, [form.setValue] the flag read from it. *)
Definition onFamilyStructureChange (form : FormValues) (value : jsstring)
  : FormValues :=
  let hasChildren := includes (toLowerCase value) (utf16 "子")
                     || includes (toLowerCase value) (utf16 "こども")
                     || includes (toLowerCase value) (utf16 "子供") in
  mkForm value form.(familyCount) hasChildren form.(age) form.(savings)
         form.(monthlyIncome).


(* ================================================================= *)
(** ** saveAssessmentData (lib/supabase) and the state of the form *)

(** The row of the table [assessments]. *)
Record AssessmentRow := mkRow {
  family_structure : jsstring;
  family_count : Z;
  row_savings : Z;
  monthly_income : Z;
  risk_score : Z;
  risk_status : jsstring;
  row_advice : option jsstring;
  created_at : jsstring
}.

(** What the data store sends back and what it fails with are its own. *)
Variable DbData : Type.
Variable DbError : Type.

(** [await supabase.from(table).insert(rows).select()]: the promise is
    rejected, it resolves to [{ data, error }], or it stays pending and the
    [await] never comes back. *)
Inductive InsertResult :=
| Rejected (e : DbError)
| Resolved (data : option DbData) (error : option DbError)
| Pending.

Definition Client : Type := jsstring -> list AssessmentRow -> InsertResult.

(** The promise of an asynchronous call is fulfilled, is rejected, or never
    settles; the console keeps what was logged. *)
Inductive Outcome (A : Type) :=
| Returned (a : A)
| Thrown (e : DbError)
| NeverSettles.

Arguments Returned {A} a.
Arguments Thrown {A} e.
Arguments NeverSettles {A}.

Inductive LogEntry :=
| console_warn (message : jsstring)
| console_error (message : jsstring) (e : DbError).

(** [advice || null]: an absent or empty text gives [null]. *)
Definition orNull (advice : option jsstring) : option jsstring :=
  match advice with
  | Some (c :: r) => Some (c :: r)
  | _ => None
  end.

(** Lines 34-45 of supabase: the row that is inserted. [now] is
    [new Date().toISOString()]. *)
Definition assessmentRow (now : jsstring) (formData : FormValues) (score : Z)
  (status : jsstring) (advice : option jsstring) : AssessmentRow :=
  mkRow formData.(familyStructure) formData.(familyCount) formData.(savings)
        formData.(monthlyIncome) score status (orNull advice) now.

(** Lines 12-55 of supabase. [supabase] is [None] when the environment holds
    no connection. *)
Definition saveAssessmentData (supabase : option Client) (now : jsstring)
  (formData : FormValues) (score : Z) (status : jsstring)
  (advice : option jsstring) : Outcome (option DbData) * list LogEntry :=
  match supabase with
  | None =>
    (Returned None,
     [console_warn
        (utf16 "Supabase client is not initialized. Data will not be saved.")])
  | Some client =>
    match client (utf16 "assessments")
                 [assessmentRow now formData score status advice] with
    | Resolved data None => (Returned data, [])
    | Resolved _ (Some error) =>
      (Thrown error, [console_error (utf16 "Error saving data to Supabase:") error])
    | Rejected error =>
      (Thrown error, [console_error (utf16 "Error saving data to Supabase:") error])
    | Pending => (NeverSettles, [])
    end
  end.

(** The state [onSubmit] writes: [result] and [isSubmitting]. *)
Record FormState := mkState {
  result : option (Z * jsstring * jsstring);
  isSubmitting : bool
}.

(** Lines 60-91 of the form, step by step: the state after each
    [setIsSubmitting] and [setResult], and the console. When the save never
    settles the [await] of line 75 does not come back and the [finally] of
    lines 88-90 is not reached. The scroll to the result is not kept. *)
Definition onSubmit_steps (supabase : option Client) (now : jsstring)
  (values : FormValues) (state : FormState) : list FormState * list LogEntry :=
  let state1 := mkState state.(result) true in
  let '(score, status, advice) := onSubmit values in
  let state2 := mkState (Some (score, status, advice)) state1.(isSubmitting) in
  let '(saved, log) :=
    saveAssessmentData supabase now values score status (Some advice) in
  let state3 := mkState state2.(result) false in
  match saved with
  | Returned _ => ([state1; state2; state3], log)
  | Thrown error =>
    ([state1; state2; state3],
     log ++ [console_error (utf16 "データの保存に失敗しました:") error])
  | NeverSettles => ([state1; state2], log)
  end.

(* ================================================================= *)
(** ** The statements of the specification *)


Definition spouseMarkers : list jsstring :=
  [utf16 "妻"; utf16 "夫"; utf16 "配偶者"].


(** The [K] of the fallback of [childrenCount]. *)
Definition spec_K (text : jsstring) : Z :=
  if existsb (fun m => includes text m) spouseMarkers then 2 else 1.

(** No digit in [s]. *)
Definition noDigit (s : jsstring) : bool :=
  forallb (fun c => negb (isDigit c)) s.

(** A run read as a decimal integer, as section 4.1 has it: every digit
    counts for its place. *)
Definition spec_digit (c : N) : Z :=
  match c with
  | 48%N => 0 | 49%N => 1 | 50%N => 2 | 51%N => 3 | 52%N => 4
  | 53%N => 5 | 54%N => 6 | 55%N => 7 | 56%N => 8 | 57%N => 9
  | _ => 0
  end.

Fixpoint spec_decimal (run : jsstring) : Z :=
  match run with
  | [] => 0
  | c :: r => spec_digit c * 10 ^ Z.of_nat (List.length r) + spec_decimal r
  end.

(** The profiles of Examples 1 and 2 of section 8, a children profile that
    reaches the least score, and a single profile with every bonus. *)
Definition example1 : FormValues :=
  mkForm (utf16 "独身") 1 false 0 0 300000.

Definition example2 : FormValues :=
  mkForm (utf16 "妻と子1人") 3 false 32 1000000 300000.

(** Two family texts with a long run of digits: twenty nines, and 310
    nines. *)
Definition twentyNines : FormValues :=
  mkForm (utf16 "子99999999999999999999人") 2 false 0 0 300000.

Definition manyNines : FormValues :=
  mkForm (utf16 "子" ++ repeat 57%N 310 ++ utf16 "人") 2 false 0 0 300000.

Definition leastProfile : FormValues :=
  mkForm (utf16 "子3人") 4 false 60 0 100000.

Definition richSingle : FormValues :=
  mkForm (utf16 "独身") 1 false 25 6000000 500000.

(** *** The micro-format of the document *)

(** No opening bracket in [s]; only white space in [s]; some code unit of
    [s] that is not white space. *)
Definition noOpen (s : jsstring) : bool :=
  forallb (fun c => negb (unit_eqb c openBracket)) s.

Definition allWhiteSpace (s : jsstring) : bool := forallb isWhiteSpace s.

Definition notBlank (s : jsstring) : bool :=
  existsb (fun c => negb (isWhiteSpace c)) s.

(** A title the marker pattern captures whole: not empty, no closing
    bracket, no line terminator. *)
Definition titleUnit (c : N) : bool :=
  negb (unit_eqb c closeBracket) && negb (isLineTerminator c).

Definition goodTitle (t : jsstring) : bool :=
  match t with
  | [] => false
  | _ => forallb titleUnit t
  end.

(** A document of section 4.4 is a sequence of blocks and of separators. *)
Inductive Item :=
| Sep (w : jsstring)
| Blk (t b : jsstring).

Definition renderItem (i : Item) : jsstring :=
  match i with
  | Sep w => w
  | Blk t b => block t b
  end.

Definition renderItems (items : list Item) : jsstring :=
  flat_map renderItem items.

Definition goodItem (i : Item) : bool :=
  match i with
  | Sep w => allWhiteSpace w
  | Blk t b => goodTitle t && noOpen b && notBlank b
  end.

Fixpoint blocksOf (items : list Item) : list (jsstring * jsstring) :=
  match items with
  | [] => []
  | Sep _ :: r => blocksOf r
  | Blk t b :: r => (t, b) :: blocksOf r
  end.

Definition optBlk (o : option (jsstring * jsstring)) : list Item :=
  match o with
  | Some (t, b) => [Blk t b]
  | None => []
  end.

(** A block as the parser hands it over: the body without the white space
    around it (risk-result.tsx, line 47). *)
Definition sectionOf (tb : jsstring * jsstring) : AdviceSection :=
  mkSection (fst tb) (trim (snd tb)).

(** The text between two markers of a rendered document: what [split]
    returns after a title. *)
Fixpoint tailSpace (items : list Item) : jsstring :=
  match items with
  | [] => []
  | Sep w :: r => w ++ tailSpace r
  | Blk _ _ :: _ => [nl]
  end.

Fixpoint segmentsOf (items : list Item) : list (jsstring * jsstring) :=
  match items with
  | [] => []
  | Sep _ :: r => segmentsOf r
  | Blk t b :: r => (t, nl :: b ++ tailSpace r) :: segmentsOf r
  end.

Definition renderSegment (ts : jsstring * jsstring) : jsstring :=
  openBracket :: fst ts ++ closeBracket :: snd ts.

Definition renderSegments (segs : list (jsstring * jsstring)) : jsstring :=
  flat_map renderSegment segs.

Definition goodSegment (ts : jsstring * jsstring) : bool :=
  goodTitle (fst ts) && noOpen (snd ts)
  && match snd ts with [] => false | _ => true end.

(** A segment keeps the title of its block, holds no opening bracket and is
    the body up to white space. *)
Definition segmentFor (t b seg : jsstring) : Prop :=
  goodTitle t = true /\ noOpen seg = true /\ notBlank seg = true
  /\ trim seg = trim b.

(** *** The order of the sections *)

(** A comparator that subtracts keys, as [compareSections] does, and the
    order it sorts by. *)
Definition compareBy {A : Type} (key : A -> Z) (a b : A) : Z := key a - key b.

Definition keyLeq {A : Type} (key : A -> Z) (a b : A) : Prop := key a <= key b.

Definition sectionOrder (s : AdviceSection) : Z := getDisplayOrder s.(title).

(** *** The blocks of section 4.4, in construction order *)

Definition optList {A : Type} (o : option A) : list A :=
  match o with
  | Some a => [a]
  | None => []
  end.

(** Block 2, emitted iff the age is not 0. *)
Definition spec_ageBlock (age : Z) : option (jsstring * jsstring) :=
  if age =? 0 then None
  else if age <? 30 then Some (ageTitle20, ageBody20)
  else if age <? 40 then Some (ageTitle30, ageBody30)
  else if age <? 50 then Some (ageTitle40, ageBody40)
  else if age <? 60 then Some (ageTitle50, ageBody50)
  else Some (ageTitle60, ageBody60).

(** Block 3, keyed by the income level. *)
Definition spec_incomeBlock (incomeLevel : Level) : jsstring * jsstring :=
  (incomeTitle,
   match incomeLevel with
   | low => incomeBodyLow
   | medium => incomeBodyMedium
   | high => incomeBodyHigh
   end).

(** Block 4, one of three variants. *)
Definition spec_familyBlock (hasChildren : bool) (familyCount : Z)
  : jsstring * jsstring :=
  if hasChildren then (familyTitleChildren, familyBodyChildren)
  else if familyCount >? 1 then (familyTitleFamily, familyBodyFamily)
  else (familyTitleSingle, familyBodySingle).

(** Block 5, emitted iff the savings are below three months of cost. *)
Definition spec_lowSavingsBlock (savings threeMonthsCost : Z)
  (hasChildren : bool) (incomeLevel : Level) : option (jsstring * jsstring) :=
  if savings <? threeMonthsCost
  then Some (lowSavingsTitle, lowSavingsBody hasChildren incomeLevel)
  else None.

(** The eight blocks with the separators of the returned template. *)
Definition templateItems (form : FormValues) (monthlyIncome familyCount : Z)
  : list Item :=
  let sixMonthsCost := monthlyIncome * familyCount * 6 in
  let threeMonthsCost := monthlyIncome * familyCount * 3 in
  let savings := form.(savings) in
  let hasChildren := advice_hasChildren form in
  let incomeLevel := getIncomeLevel monthlyIncome in
  let savingsLevel := getSavingsLevel savings threeMonthsCost in
  let riskProfile := getRiskProfile hasChildren savingsLevel incomeLevel in
  [ Blk fundingTitle
        (fundingBody monthlyIncome savings threeMonthsCost sixMonthsCost);
    Sep [nl; nl] ]
  ++ optBlk (spec_ageBlock form.(age))
  ++ [ Sep [nl; nl];
       Blk (fst (spec_incomeBlock incomeLevel)) (snd (spec_incomeBlock incomeLevel));
       Sep [nl; nl];
       Blk (fst (spec_familyBlock hasChildren familyCount))
           (snd (spec_familyBlock hasChildren familyCount));
       Sep [nl] ]
  ++ optBlk (spec_lowSavingsBlock savings threeMonthsCost hasChildren incomeLevel)
  ++ [ Sep [nl];
       Blk careerTitle (careerComparisonBody hasChildren);
       Sep [nl];
       Blk encouragementTitle (encouragementBody riskProfile hasChildren);
       Sep [nl];
       Blk stepsTitle (stepsBody form hasChildren incomeLevel);
       Sep (nl :: utf16 "    ") ].

(** The blocks the composer emits: title and body, in construction order.
    [spec_tailBlocks] are the blocks 3 to 8. *)
Definition spec_fundingBlock (form : FormValues) (monthlyIncome familyCount : Z)
  : jsstring * jsstring :=
  let sixMonthsCost := monthlyIncome * familyCount * 6 in
  let threeMonthsCost := monthlyIncome * familyCount * 3 in
  (fundingTitle,
   fundingBody monthlyIncome form.(savings) threeMonthsCost sixMonthsCost).

Definition spec_tailBlocks (form : FormValues) (monthlyIncome familyCount : Z)
  : list (jsstring * jsstring) :=
  let threeMonthsCost := monthlyIncome * familyCount * 3 in
  let savings := form.(savings) in
  let hasChildren := advice_hasChildren form in
  let incomeLevel := getIncomeLevel monthlyIncome in
  let savingsLevel := getSavingsLevel savings threeMonthsCost in
  let riskProfile := getRiskProfile hasChildren savingsLevel incomeLevel in
  [ spec_incomeBlock incomeLevel;
    spec_familyBlock hasChildren familyCount ]
  ++ optList (spec_lowSavingsBlock savings threeMonthsCost hasChildren incomeLevel)
  ++ [ (careerTitle, careerComparisonBody hasChildren);
       (encouragementTitle, encouragementBody riskProfile hasChildren);
       (stepsTitle, stepsBody form hasChildren incomeLevel) ].

Definition spec_blocks (form : FormValues) (monthlyIncome familyCount : Z)
  : list (jsstring * jsstring) :=
  spec_fundingBlock form monthlyIncome familyCount
  :: optList (spec_ageBlock form.(age))
  ++ spec_tailBlocks form monthlyIncome familyCount.

(** The titles of the blocks but the age-bracket one. *)
Definition fixedTitles : list jsstring :=
  [ fundingTitle; incomeTitle; familyTitleChildren; familyTitleFamily;
    familyTitleSingle; lowSavingsTitle; careerTitle; encouragementTitle;
    stepsTitle ].

(** The three keys of the ordering law. *)
Definition keySpecial : jsstring := utf16 "あなたへの特別".
Definition keyFunding : jsstring := utf16 "資金目標".
Definition keyIncome : jsstring := utf16 "月収に応じた".

(** The parser takes from a body at most the line feed the template leaves
    at its end. *)
Definition bodyKept (tb : jsstring * jsstring) : Prop :=
  trim (snd tb) = snd tb \/ snd tb = trim (snd tb) ++ [nl].

(** The form with another age. *)
Definition withAge (form : FormValues) (a : Z) : FormValues :=
  mkForm form.(familyStructure) form.(familyCount) form.(hasChildren) a
         form.(savings) form.(monthlyIncome).

(** A body that starts and ends with a code unit that is not white space. *)
Definition startsNonBlank (s : jsstring) : bool :=
  match s with
  | c :: _ => negb (isWhiteSpace c)
  | [] => false
  end.

Definition endsNonBlank (s : jsstring) : bool := startsNonBlank (rev s).

(** The titles of the age-bracket block. *)
Definition ageTitles : list jsstring :=
  [ageTitle20; ageTitle30; ageTitle40; ageTitle50; ageTitle60].

Definition isAgeTitle (t : jsstring) : bool :=
  existsb (fun a => if list_eq_dec N.eq_dec t a then true else false) ageTitles.

(* ================================================================= *)
(** ** What the program relies on from the host *)

Hypothesis toLowerCase_digits :
  forall s, digitRuns [] (toLowerCase s) = digitRuns [] s.

Hypothesis toLowerCase_caseless :
  forall s m, forallb isCaseless m = true ->
    includes (toLowerCase s) m = includes s m.

Hypothesis toLocaleString_plain :
  forall q, noOpen (toLocaleString q) = true.

(* ================================================================= *)
(** ** Tactics *)

(** A goal on closed strings, by evaluation. *)
Ltac closed_body :=
  unfold bodyKept; cbn [snd];
  first [ left; vm_compute; reflexivity | right; vm_compute; reflexivity ].

(** One goal for each element of an explicit list. *)
Ltac each_block :=
  repeat first [ apply Forall_nil | apply Forall_cons
               | apply Forall_app; split ].

(** Every conditional of the goal, by cases. *)
Ltac each_branch :=
  repeat match goal with |- context [if ?b then _ else _] => destruct b end.

(* ================================================================= *)
(** ** The string functions on small inputs *)

Example utf16_brackets :
  utf16 "【a】" = [openBracket; 97%N; closeBracket].
Proof. reflexivity. Qed.

Example includes_marker :
  includes (utf16 "妻と子2人") (utf16 "子") = true
  /\ includes (utf16 "夫婦") (utf16 "子") = false.
Proof. split; reflexivity. Qed.

Example match_digits_runs :
  String_match_digits (utf16 "子2人と親12人") = Some [utf16 "2"; utf16 "12"]
  /\ String_match_digits (utf16 "独身") = None.
Proof. split; reflexivity. Qed.

Example parseInt10_runs :
  parseInt10 (utf16 "12") = Finite 12 /\ parseInt10 (utf16 "007") = Finite 7
  /\ parseInt10 (utf16 "9007199254740993") = Finite 9007199254740992
  /\ parseInt10 (utf16 "9007199254740995") = Finite 9007199254740996
  /\ parseInt10 (utf16 "99999999999999999999") = Finite (10 ^ 20)
  /\ parseInt10 (repeat 57%N 310) = Infinity.
Proof. repeat split; vm_compute; reflexivity. Qed.

Example trim_both_ends :
  trim (nl :: utf16 "  a b ") = utf16 "a b" /\ trim [nl; nl] = [].
Proof. split; reflexivity. Qed.

Example numberToString_digits :
  numberToString 0 = utf16 "0" /\ numberToString 29 = utf16 "29".
Proof. split; reflexivity. Qed.

Example groupedDecimal_yen :
  groupedDecimal (inject_Z 2700000) = utf16 "2,700,000"
  /\ groupedDecimal (inject_Z 123456 * (2 # 10)) = utf16 "24,691.2".
Proof. split; vm_compute; reflexivity. Qed.

(** The marker pattern: a title is at least one code unit, it holds no line
    terminator, and the first closing bracket after its first unit ends it. *)
Example split_markers :
  String_split_marker (utf16 "a【t】b【u】") = [utf16 "a"; utf16 "t"; utf16 "b"; utf16 "u"; []]
  /\ String_split_marker (utf16 "plain") = [utf16 "plain"]
  /\ String_split_marker [] = [[]]
  /\ String_split_marker (utf16 "【】x") = [utf16 "【】x"]
  /\ String_split_marker (utf16 "【】】x") = [[]; utf16 "】"; utf16 "x"]
  /\ String_split_marker (utf16 "x【a" ++ nl :: utf16 "b】c【d】e")
     = [utf16 "x【a" ++ nl :: utf16 "b】c"; utf16 "d"; utf16 "e"].
Proof. repeat split; vm_compute; reflexivity. Qed.

Example parse_no_marker : parseSections (utf16 "no marker at all") = [].
Proof. reflexivity. Qed.

Example getDisplayOrder_titles :
  map getDisplayOrder
      [encouragementTitle; fundingTitle; incomeTitle; familyTitleChildren;
       familyTitleFamily; familyTitleSingle; lowSavingsTitle; careerTitle;
       stepsTitle; ageTitle30]
  = [1; 2; 3; 4; 4; 4; 5; 6; 7; 99].
Proof. vm_compute; reflexivity. Qed.

Example Array_sort_is_stable :
  Array_sort (compareBy (fun p : Z * Z => fst p)) [(2, 0); (1, 1); (2, 2); (1, 3)]
  = [(1, 1); (1, 3); (2, 0); (2, 2)].
Proof. reflexivity. Qed.

(* ================================================================= *)
(** ** Properties of the score *)

Lemma Math_round_inject_Z (z : Z) : Math_round (inject_Z z) = z.
Proof.
  unfold Math_round, Qfloor, inject_Z, Qplus; simpl.
  symmetry; apply Z.div_unique with (r := 1); lia.
Qed.

Lemma scaledScoreOf_bounds (s m f : Z) : 40 <= scaledScoreOf s m f <= 100.
Proof. unfold scaledScoreOf; cbv zeta; lia. Qed.

Lemma ageBonusOf_bounds (a : Z) : 3 <= ageBonusOf a <= 15.
Proof.
  unfold ageBonusOf.
  each_branch; lia.
Qed.

Lemma incomeBonusOf_bounds (m : Z) : 3 <= incomeBonusOf m <= 10.
Proof.
  unfold incomeBonusOf.
  each_branch; lia.
Qed.

Lemma savingsBonusOf_bounds (s m f : Z) : 2 <= savingsBonusOf s m f <= 10.
Proof.
  unfold savingsBonusOf; cbv zeta.
  each_branch; lia.
Qed.

(** The runs [/\d+/g] returns are made of digits. *)
Lemma digitRuns_digits (s cur : jsstring) :
  forallb isDigit cur = true ->
  Forall (fun run => forallb isDigit run = true) (digitRuns cur s).
Proof.
  revert cur; induction s as [|c r IH]; intros cur Hcur; simpl.
  - destruct cur; constructor; auto.
  - destruct (isDigit c) eqn:Hc.
    + apply IH. rewrite forallb_app, Hcur; simpl; now rewrite Hc.
    + destruct cur; [apply IH; reflexivity|].
      constructor; [assumption | apply IH; reflexivity].
Qed.

Lemma digitValue_nonneg (c : N) : isDigit c = true -> 0 <= digitValue c <= 9.
Proof.
  unfold isDigit, digitValue; intros H.
  apply andb_true_iff in H as [H1 H2].
  apply N.leb_le in H1, H2; lia.
Qed.

Lemma mathInt_acc (run : jsstring) (acc : Z) :
  fold_left (fun a c => 10 * a + digitValue c) run acc
  = acc * 10 ^ Z.of_nat (List.length run) + mathInt run.
Proof.
  unfold mathInt. revert acc.
  induction run as [|c r IH]; intros acc; cbn [fold_left List.length].
  - cbn. lia.
  - rewrite IH, (IH (10 * 0 + digitValue c)).
    rewrite Nat2Z.inj_succ, Z.pow_succ_r by lia. lia.
Qed.

Lemma spec_digit_digitValue (c : N) :
  isDigit c = true -> spec_digit c = digitValue c.
Proof.
  unfold isDigit, digitValue; intros H.
  apply andb_true_iff in H as [H1 H2]. apply N.leb_le in H1, H2.
  assert (E : (c = 48 \/ c = 49 \/ c = 50 \/ c = 51 \/ c = 52 \/ c = 53
               \/ c = 54 \/ c = 55 \/ c = 56 \/ c = 57)%N) by lia.
  repeat (destruct E as [E|E]; [subst c; reflexivity|]).
  subst c; reflexivity.
Qed.

(** The loop of [parseInt] reads what the positions say. *)
Lemma mathInt_decimal (run : jsstring) :
  forallb isDigit run = true -> mathInt run = spec_decimal run.
Proof.
  induction run as [|c r IH]; intros H; [reflexivity|].
  cbn [forallb] in H. apply andb_true_iff in H as [Hc Hr].
  unfold mathInt. cbn [fold_left spec_decimal].
  rewrite mathInt_acc, IH, (spec_digit_digitValue c Hc) by assumption. lia.
Qed.

Lemma spec_decimal_bounds (run : jsstring) :
  forallb isDigit run = true ->
  0 <= spec_decimal run < 10 ^ Z.of_nat (List.length run).
Proof.
  induction run as [|c r IH]; intros H; [cbn; lia|].
  cbn [forallb] in H. apply andb_true_iff in H as [Hc Hr].
  specialize (IH Hr). cbn [spec_decimal List.length].
  rewrite Nat2Z.inj_succ, Z.pow_succ_r by lia.
  pose proof (digitValue_nonneg c Hc) as D.
  rewrite <- (spec_digit_digitValue c Hc) in D.
  assert (0 < 10 ^ Z.of_nat (List.length r)) by (apply Z.pow_pos_nonneg; lia).
  nia.
Qed.

(** Integers up to 2^53 are Numbers. *)
Lemma Number_of_integer_exact (n : Z) :
  n <= 2 ^ 53 -> Number_of_integer n = Finite n.
Proof.
  intros H. destruct (Z.eq_dec n (2 ^ 53)) as [->|Hne].
  { vm_compute; reflexivity. }
  unfold Number_of_integer; cbv zeta.
  assert (L : Z.log2 n - 52 <= 0).
  { destruct (Z.le_gt_cases n 0) as [Hn|Hn].
    - rewrite Z.log2_nonpos by assumption. lia.
    - assert (Z.log2 n < 53) by (apply Z.log2_lt_pow2; lia). lia. }
  apply Z.leb_le in L. now rewrite L.
Qed.

(** [Math.min(3, .)] does not see the rounding. *)
Lemma Math_min_Number_of_integer (n : Z) :
  0 <= n -> Math_min 3 (Number_of_integer n) = Z.min 3 n.
Proof.
  intros Hn. unfold Number_of_integer; cbv zeta.
  destruct (Z.leb_spec (Z.log2 n - 52) 0) as [L|L]; [reflexivity|].
  assert (Hpos : 0 < n).
  { destruct (Z.eq_dec n 0) as [->|]; [cbn in L; lia | lia]. }
  pose proof (Z.log2_spec n Hpos) as [Hlo _].
  set (e := Z.log2 n - 52) in *.
  assert (He : Z.log2 n = 52 + e) by (subst e; lia).
  rewrite He, Z.pow_add_r in Hlo by lia.
  assert (H2e : 2 <= 2 ^ e).
  { change 2 with (2 ^ 1) at 1. apply Z.pow_le_mono_r; lia. }
  assert (Hq : 2 ^ 52 <= Z.shiftr n e).
  { rewrite Z.shiftr_div_pow2 by lia. apply Z.div_le_lower_bound; lia. }
  assert (Hn3 : 3 <= n).
  { assert (2 ^ 52 * 2 <= n) by nia. change (2 ^ 52) with 4503599627370496 in *.
    lia. }
  set (q := Z.shiftr n e) in *.
  assert (Hv : forall m, q <= m -> 3 <= Z.shiftl m e).
  { intros m Hm. rewrite Z.shiftl_mul_pow2 by lia.
    change (2 ^ 52) with 4503599627370496 in Hq. nia. }
  match goal with
  | |- Math_min 3 (if Z.shiftl ?m e <? _ then _ else _) = _ =>
    assert (Hm : q <= m) by (repeat match goal with
                                    | |- context [if ?b then _ else _] =>
                                      destruct b
                                    end; lia);
    specialize (Hv m Hm); destruct (Z.shiftl m e <? 2 ^ 1024)
  end; cbn [Math_min]; lia.
Qed.

Lemma mathInt_nonneg (run : jsstring) :
  forallb isDigit run = true -> 0 <= mathInt run.
Proof.
  intros H. rewrite mathInt_decimal by assumption.
  now apply spec_decimal_bounds.
Qed.

(** Whatever the text, [Math.min(3, childrenCount)] is a count of 0..3. *)
Lemma Math_min_childrenCount (form : FormValues) (fc : Z) :
  0 <= Math_min 3 (score_childrenCount form fc) <= 3.
Proof.
  unfold score_childrenCount; cbv zeta.
  destruct (score_hasChildren form); [|cbn [Math_min]; lia].
  unfold String_match_digits.
  pose proof (digitRuns_digits (toLowerCase (familyStructure form)) [] eq_refl) as H.
  destruct (digitRuns [] (toLowerCase (familyStructure form))) as [|first rest];
    [cbn [Math_min]; lia|].
  inversion H; subst. unfold parseInt10.
  pose proof (mathInt_nonneg first ltac:(assumption)).
  rewrite Math_min_Number_of_integer by assumption. lia.
Qed.

(** The sum before the floor: at least 43, at most 145; with children it
    stays below 136. *)
Lemma score_beforeFloor_bounds (form : FormValues) (s m f : Z) :
  43 <= score_beforeFloor form s m f <= 145.
Proof.
  unfold score_beforeFloor, familyStep; cbv zeta.
  pose proof (scaledScoreOf_bounds s m f).
  pose proof (ageBonusOf_bounds (if age form =? 0 then 35 else age form)).
  pose proof (incomeBonusOf_bounds m).
  pose proof (savingsBonusOf_bounds s m f).
  pose proof (Math_min_childrenCount form f).
  destruct (score_hasChildren form); [|destruct (f >? 1)]; lia.
Qed.

Lemma calculateRiskScore_eq (form : FormValues) (s m f : Z) :
  calculateRiskScore form s m f =
  Z.min 100 (if negb (score_hasChildren form)
             then Z.max 80 (score_beforeFloor form s m f)
             else score_beforeFloor form s m f).
Proof. unfold calculateRiskScore; cbv zeta. apply Math_round_inject_Z. Qed.

(** C1. For every input of the contract (familyCount >= 1, monthlyIncome >= 1,
    savings >= 0, age 0 or in 18..100) the score [calculateRiskScore] returns
    is between 40 and 100, and it is at least 80 when the derived
    hasChildren is false. *)
Theorem C1_score_range (v : FormValues) :
  validInput v ->
  let score := calculateRiskScore v v.(savings) v.(monthlyIncome) v.(familyCount) in
  40 <= score <= 100 /\ (score_hasChildren v = false -> 80 <= score).
Proof.
  intros _ score; subst score.
  rewrite calculateRiskScore_eq.
  pose proof (score_beforeFloor_bounds v (savings v) (monthlyIncome v) (familyCount v)).
  destruct (score_hasChildren v); simpl; split; try lia; discriminate.
Qed.

(** C2. On Example 2 of section 8 the derived hasChildren is true and
    childrenCount is 1, the score is 74 and the label is the one of the
    highest band. familyAdjustment (-5) enters twice, once in the re-floor
    of the scaled score and once in the final sum: whatever the scaled score
    the re-floor takes the greater of 60 and the scaled score less 5, and
    whatever the savings of this profile the sum adds -5 to that again. On
    Example 2 the re-floor gives 60 either way; with savings of 1,890,000
    yen the scaled score is 70 and the same profile scores 82, which an
    adjustment applied once (87) would not give. *)
Theorem C2_example2 :
  score_hasChildren example2 = true
  /\ score_childrenCount example2 3 = Finite 1
  /\ scaledScoreOf 1000000 300000 3 = 40
  /\ (forall scaledScore : Z,
        familyStep true (Finite 1) 3 scaledScore
        = (-5, Z.max 60 (scaledScore + -5)))
  /\ (forall savings : Z,
        score_beforeFloor example2 savings 300000 3
        = Z.max 60 (scaledScoreOf savings 300000 3 + -5) + 10 + -5 + 7
          + savingsBonusOf savings 300000 3)
  /\ score_beforeFloor example2 1000000 300000 3 = 60 + 10 + -5 + 7 + 2
  /\ calculateRiskScore example2 1000000 300000 3 = 74
  /\ getRiskStatus (calculateRiskScore example2 1000000 300000 3)
     = utf16 "絶好のタイミング"
  /\ scaledScoreOf 1890000 300000 3 = 70
  /\ calculateRiskScore example2 1890000 300000 3 = 65 + 10 + -5 + 7 + 5.
Proof.
  assert (Hc : score_hasChildren example2 = true).
  { unfold score_hasChildren; cbv zeta.
    rewrite !toLowerCase_caseless by reflexivity. reflexivity. }
  assert (Hn : score_childrenCount example2 3 = Finite 1).
  { unfold score_childrenCount; cbv zeta. rewrite Hc.
    unfold String_match_digits. rewrite toLowerCase_digits. reflexivity. }
  assert (Hf : forall scaledScore : Z,
             familyStep true (Finite 1) 3 scaledScore
             = (-5, Z.max 60 (scaledScore + -5))).
  { intros scaledScore. reflexivity. }
  assert (Hg : forall savings : Z,
             score_beforeFloor example2 savings 300000 3
             = Z.max 60 (scaledScoreOf savings 300000 3 + -5) + 10 + -5 + 7
               + savingsBonusOf savings 300000 3).
  { intros savings. unfold score_beforeFloor; cbv zeta.
    rewrite Hc, Hn, Hf. reflexivity. }
  assert (H40 : scaledScoreOf 1000000 300000 3 = 40) by reflexivity.
  assert (H70 : scaledScoreOf 1890000 300000 3 = 70) by reflexivity.
  assert (Hb : score_beforeFloor example2 1000000 300000 3 = 74).
  { rewrite Hg, H40. reflexivity. }
  assert (Hs : calculateRiskScore example2 1000000 300000 3 = 74).
  { rewrite calculateRiskScore_eq, Hc, Hb. reflexivity. }
  assert (Hs2 : calculateRiskScore example2 1890000 300000 3 = 82).
  { rewrite calculateRiskScore_eq, Hc, Hg, H70. reflexivity. }
  rewrite Hs.
  repeat split; try assumption; reflexivity.
Qed.

(** C4, as amended. The sum computed before the no-children floor is at
    least 40 (at least 43) and at most 145; the floor and the clamp come
    after it, so the returned value is in 80..100 whenever hasChildren is
    false, and in 0..100 always. *)
Theorem C4_intermediate_bounds (v : FormValues) :
  validInput v ->
  let pre := score_beforeFloor v v.(savings) v.(monthlyIncome) v.(familyCount) in
  let score := calculateRiskScore v v.(savings) v.(monthlyIncome) v.(familyCount) in
  (40 <= pre <= 145)
  /\ (score_hasChildren v = false -> 80 <= score <= 100)
  /\ (0 <= score <= 100).
Proof.
  intros _ pre score; subst pre score.
  rewrite calculateRiskScore_eq.
  pose proof (score_beforeFloor_bounds v (savings v) (monthlyIncome v) (familyCount v)).
  destruct (score_hasChildren v); simpl; repeat split; try lia; discriminate.
Qed.


Lemma digitRuns_skip (pre s : jsstring) :
  noDigit pre = true -> digitRuns [] (pre ++ s) = digitRuns [] s.
Proof.
  induction pre as [|c r IH]; intros H; [reflexivity|].
  cbn [noDigit forallb] in H. apply andb_true_iff in H as [Hc Hr].
  cbn [app digitRuns]. apply negb_true_iff in Hc. rewrite Hc. now apply IH.
Qed.

Lemma digitRuns_run (run cur s : jsstring) :
  forallb isDigit run = true ->
  digitRuns cur (run ++ s) = digitRuns (cur ++ run) s.
Proof.
  revert cur; induction run as [|c r IH]; intros cur H.
  - now rewrite app_nil_r.
  - cbn [forallb] in H. apply andb_true_iff in H as [Hc Hr].
    cbn [app digitRuns]. rewrite Hc, IH by assumption.
    now rewrite <- app_assoc.
Qed.

Lemma digitRuns_end (cur post : jsstring) :
  cur <> [] -> noDigit (firstn 1 post) = true ->
  exists rest, digitRuns cur post = cur :: rest.
Proof.
  intros Hcur H. destruct post as [|c r]; cbn [digitRuns].
  - destruct cur; [contradiction|]. now exists [].
  - cbn [firstn noDigit forallb] in H. rewrite andb_true_r in H.
    apply negb_true_iff in H. rewrite H.
    destruct cur; [contradiction|]. now eexists.
Qed.

Lemma digitRuns_none (s : jsstring) :
  noDigit s = true -> digitRuns [] s = [].
Proof.
  intros H. rewrite <- (app_nil_r s). now rewrite digitRuns_skip.
Qed.

(** C6, as amended. When hasChildren is derived true: if the text reads
    [pre ++ run ++ post] with no digit in [pre], [run] a non-empty run of
    digits and [post] not starting with a digit (the first maximal digit
    run), childrenCount is the Number value of that run read as a decimal
    integer: the integer itself, which is not negative, when it is at most
    2^53, so for every run of up to 15 digits; beyond that the nearest
    Number, or Infinity. [Math.min(3, childrenCount)], which is all the
    score takes of it, is in every case the lesser of 3 and the integer. If
    the text holds no digit, childrenCount is max(1, familyCount - K), K
    being 2 when the text contains a spouse marker and 1 otherwise. *)
Theorem C6_childrenCount (form : FormValues) (fc : Z) :
  score_hasChildren form = true ->
  (forall pre run post,
      form.(familyStructure) = pre ++ run ++ post ->
      noDigit pre = true -> run <> [] -> forallb isDigit run = true ->
      noDigit (firstn 1 post) = true ->
      0 <= spec_decimal run
      /\ score_childrenCount form fc = Number_of_integer (spec_decimal run)
      /\ (spec_decimal run <= 2 ^ 53 ->
          score_childrenCount form fc = Finite (spec_decimal run))
      /\ ((List.length run <= 15)%nat ->
          score_childrenCount form fc = Finite (spec_decimal run))
      /\ Math_min 3 (score_childrenCount form fc)
         = Z.min 3 (spec_decimal run))
  /\ (noDigit form.(familyStructure) = true ->
      score_childrenCount form fc
      = Finite (Z.max 1 (fc - spec_K form.(familyStructure)))).
Proof.
  intros Hc; split.
  - intros pre run post Htext Hpre Hne Hrun Hpost.
    pose proof (spec_decimal_bounds run Hrun) as [B0 B1].
    assert (E : score_childrenCount form fc
                = Number_of_integer (spec_decimal run)).
    { unfold score_childrenCount; cbv zeta. rewrite Hc.
      unfold String_match_digits.
      rewrite toLowerCase_digits, Htext, digitRuns_skip, digitRuns_run
        by assumption.
      destruct (digitRuns_end ([] ++ run) post) as [rest ->]; [assumption..|].
      cbn [app]. unfold parseInt10. now rewrite mathInt_decimal. }
    split; [exact B0|]. split; [exact E|]. split; [|split].
    + intros H. rewrite E. now apply Number_of_integer_exact.
    + intros H. rewrite E. apply Number_of_integer_exact.
      assert (10 ^ Z.of_nat (List.length run) <= 10 ^ 15)
        by (apply Z.pow_le_mono_r; lia).
      assert (10 ^ 15 <= 2 ^ 53) by (vm_compute; discriminate).
      lia.
    + rewrite E. now apply Math_min_Number_of_integer.
  - intros Hnone.
    unfold score_childrenCount; cbv zeta. rewrite Hc.
    unfold String_match_digits.
    rewrite toLowerCase_digits, digitRuns_none by assumption.
    unfold spec_K, spouseMarkers. cbn [existsb].
    rewrite !toLowerCase_caseless by reflexivity.
    rewrite orb_false_r, !orb_assoc. reflexivity.
Qed.

Lemma status_labels_differ :
  utf16 "準備OK" <> utf16 "検討段階"
  /\ utf16 "絶好のタイミング" <> utf16 "検討段階".
Proof. split; intro H; vm_compute in H; discriminate. Qed.

(** C9. For every input with familyCount >= 1, monthlyIncome >= 1 and
    savings >= 0 the returned score is above 40, indeed at least 43, a value
    a profile with children reaches; so the status is never the label of the
    lowest band, it is one of the two others. *)
Theorem C9_never_considering :
  (forall v : FormValues,
      1 <= v.(familyCount) -> 1 <= v.(monthlyIncome) -> 0 <= v.(savings) ->
      let score := calculateRiskScore v v.(savings) v.(monthlyIncome) v.(familyCount) in
      40 < score /\ 43 <= score
      /\ getRiskStatus score <> utf16 "検討段階"
      /\ (getRiskStatus score = utf16 "準備OK"
          \/ getRiskStatus score = utf16 "絶好のタイミング"))
  /\ (validInput leastProfile
      /\ score_hasChildren leastProfile = true
      /\ calculateRiskScore leastProfile leastProfile.(savings)
           leastProfile.(monthlyIncome) leastProfile.(familyCount) = 43).
Proof.
  split.
  - intros v _ _ _ score.
    assert (H : 43 <= score).
    { subst score. rewrite calculateRiskScore_eq.
      pose proof (score_beforeFloor_bounds v (savings v) (monthlyIncome v)
                    (familyCount v)).
      destruct (score_hasChildren v); simpl; lia. }
    clearbody score. repeat split; try lia.
    + unfold getRiskStatus.
      destruct (score <=? 40) eqn:E; [apply Z.leb_le in E; lia|].
      destruct (score <=? 70); apply status_labels_differ.
    + unfold getRiskStatus.
      destruct (score <=? 40) eqn:E; [apply Z.leb_le in E; lia|].
      destruct (score <=? 70); [now left | now right].
  - assert (Hc : score_hasChildren leastProfile = true).
    { unfold score_hasChildren; cbv zeta.
      rewrite !toLowerCase_caseless by reflexivity. reflexivity. }
    assert (Hn : score_childrenCount leastProfile 4 = Finite 3).
    { unfold score_childrenCount; cbv zeta. rewrite Hc.
      unfold String_match_digits. rewrite toLowerCase_digits. reflexivity. }
    split; [|split; [assumption|]].
    + unfold validInput; cbn; lia.
    + rewrite calculateRiskScore_eq, Hc.
      unfold score_beforeFloor; cbv zeta.
      change (familyCount leastProfile) with 4. rewrite Hc, Hn. reflexivity.
Qed.

(* ================================================================= *)
(** ** Properties of the parser *)

(** *** trim *)

Lemma trimStart_ws (w s : jsstring) :
  allWhiteSpace w = true -> trimStart (w ++ s) = trimStart s.
Proof.
  induction w as [|c r IH]; intros H; [reflexivity|].
  cbn [allWhiteSpace forallb] in H. apply andb_true_iff in H as [Hc Hr].
  cbn [app trimStart]. rewrite Hc. now apply IH.
Qed.

Lemma trimStart_blank (w : jsstring) :
  allWhiteSpace w = true -> trimStart w = [].
Proof.
  intros H. rewrite <- (app_nil_r w). now rewrite trimStart_ws.
Qed.

Lemma trimStart_app_nonws (x y : jsstring) (c : N) :
  isWhiteSpace c = false -> trimStart (x ++ c :: y) = trimStart x ++ c :: y.
Proof.
  intros Hc. induction x as [|d r IH]; cbn [app trimStart].
  - now rewrite Hc.
  - destruct (isWhiteSpace d); [assumption | reflexivity].
Qed.

Lemma trimStart_split (s : jsstring) :
  exists w, allWhiteSpace w = true /\ s = w ++ trimStart s.
Proof.
  induction s as [|c r [w [Hw E]]].
  - now exists [].
  - cbn [trimStart]. destruct (isWhiteSpace c) eqn:Hc.
    + exists (c :: w). cbn [allWhiteSpace forallb app].
      fold (allWhiteSpace w). rewrite Hc, Hw. split; [reflexivity | congruence].
    + now exists [].
Qed.

Lemma allWhiteSpace_rev (w : jsstring) :
  allWhiteSpace (rev w) = allWhiteSpace w.
Proof.
  unfold allWhiteSpace. induction w as [|c r IH]; [reflexivity|].
  cbn [rev forallb]. rewrite forallb_app, IH. cbn [forallb].
  rewrite andb_true_r. apply andb_comm.
Qed.

Lemma trimEnd_ws (s w : jsstring) :
  allWhiteSpace w = true -> trimEnd (s ++ w) = trimEnd s.
Proof.
  intros H. unfold trimEnd. rewrite rev_app_distr, trimStart_ws; [reflexivity|].
  now rewrite allWhiteSpace_rev.
Qed.

Lemma trimEnd_app_nonws (a s : jsstring) (c : N) :
  isWhiteSpace c = false -> trimEnd (a ++ c :: s) = a ++ c :: trimEnd s.
Proof.
  intros Hc. unfold trimEnd.
  rewrite rev_app_distr. cbn [rev]. rewrite <- app_assoc. cbn [app].
  rewrite trimStart_app_nonws by assumption.
  rewrite rev_app_distr. cbn [rev]. rewrite rev_involutive.
  now rewrite <- app_assoc.
Qed.

Lemma trimEnd_split (s : jsstring) :
  exists w, allWhiteSpace w = true /\ s = trimEnd s ++ w.
Proof.
  destruct (trimStart_split (rev s)) as [w [Hw E]].
  exists (rev w). rewrite allWhiteSpace_rev. split; [assumption|].
  unfold trimEnd. rewrite <- rev_app_distr, <- E. now rewrite rev_involutive.
Qed.

Lemma trim_ws_l (w s : jsstring) :
  allWhiteSpace w = true -> trim (w ++ s) = trim s.
Proof. intros H. unfold trim. now rewrite trimStart_ws. Qed.

Lemma trim_ws_r (s w : jsstring) :
  allWhiteSpace w = true -> trim (s ++ w) = trim s.
Proof.
  intros H. induction s as [|c r IH].
  - unfold trim. cbn [app]. now rewrite trimStart_blank.
  - unfold trim in *. cbn [app trimStart]. destruct (isWhiteSpace c); [assumption|].
    change (c :: r ++ w) with ((c :: r) ++ w). now apply trimEnd_ws.
Qed.

Lemma trim_trimEnd (s : jsstring) : trim (trimEnd s) = trim s.
Proof.
  destruct (trimEnd_split s) as [w [Hw E]].
  rewrite E at 2. now rewrite trim_ws_r.
Qed.

Lemma notBlank_trimEnd (s : jsstring) : notBlank s = true -> trimEnd s <> [].
Proof.
  intros H E. destruct (trimEnd_split s) as [w [Hw Es]].
  rewrite E in Es; cbn [app] in Es; subst w.
  unfold notBlank in H. apply existsb_exists in H as [c [Hin Hc]].
  unfold allWhiteSpace in Hw. rewrite forallb_forall in Hw.
  rewrite (Hw c Hin) in Hc. discriminate.
Qed.

Lemma noOpen_trimEnd (s : jsstring) : noOpen s = true -> noOpen (trimEnd s) = true.
Proof.
  intros H. destruct (trimEnd_split s) as [w [_ E]].
  rewrite E in H. unfold noOpen in *. rewrite forallb_app in H.
  now apply andb_true_iff in H as [H _].
Qed.

Lemma allWhiteSpace_noOpen (w : jsstring) :
  allWhiteSpace w = true -> noOpen w = true.
Proof.
  unfold allWhiteSpace, noOpen. rewrite !forallb_forall.
  intros H c Hin. specialize (H c Hin).
  destruct (unit_eqb c openBracket) eqn:E; [|reflexivity].
  apply N.eqb_eq in E; subst c. discriminate.
Qed.

(** *** The marker pattern and split *)

Lemma lazyUntilClose_title (t rest : jsstring) :
  forallb titleUnit t = true ->
  lazyUntilClose (t ++ closeBracket :: rest) = Some (t, rest).
Proof.
  induction t as [|c r IH]; intros H.
  - reflexivity.
  - cbn [forallb] in H. apply andb_true_iff in H as [Hc Hr].
    unfold titleUnit in Hc. apply andb_true_iff in Hc as [H1 H2].
    apply negb_true_iff in H1, H2.
    cbn [app lazyUntilClose]. rewrite H1, H2, IH by assumption. reflexivity.
Qed.

Lemma matchMarker_marker (t rest : jsstring) :
  goodTitle t = true ->
  matchMarker (openBracket :: t ++ closeBracket :: rest) = Some (t, rest).
Proof.
  destruct t as [|c r]; [discriminate|]. cbn [goodTitle forallb]. intros H.
  apply andb_true_iff in H as [Hc Hr].
  unfold titleUnit in Hc. apply andb_true_iff in Hc as [_ H2].
  cbn [app matchMarker]. rewrite H2, lazyUntilClose_title by assumption.
  reflexivity.
Qed.

Lemma matchMarker_other (c : N) (r : jsstring) :
  unit_eqb c openBracket = false -> matchMarker (c :: r) = None.
Proof.
  intros H. unfold matchMarker. destruct r; [reflexivity|]. now rewrite H.
Qed.

Lemma splitFrom_skip (m acc s : jsstring) :
  splitFrom (List.length m) acc (m ++ s) = splitFrom O acc s.
Proof. induction m as [|c r IH]; [reflexivity | exact IH]. Qed.

Lemma splitFrom_text (seg acc s : jsstring) :
  noOpen seg = true -> splitFrom O acc (seg ++ s) = splitFrom O (acc ++ seg) s.
Proof.
  revert acc. induction seg as [|c r IH]; intros acc H.
  - now rewrite app_nil_r.
  - cbn [noOpen forallb] in H. apply andb_true_iff in H as [Hc Hr].
    apply negb_true_iff in Hc.
    cbn [app splitFrom]. rewrite matchMarker_other by assumption.
    rewrite IH by assumption. now rewrite <- app_assoc.
Qed.

Lemma splitFrom_marker (t acc s : jsstring) :
  goodTitle t = true ->
  splitFrom O acc (openBracket :: t ++ closeBracket :: s)
  = acc :: t :: splitFrom O [] s.
Proof.
  intros H. cbn [splitFrom]. rewrite matchMarker_marker by assumption.
  do 2 f_equal.
  replace (t ++ closeBracket :: s) with ((t ++ [closeBracket]) ++ s)
    by now rewrite <- app_assoc.
  replace (S (List.length t)) with (List.length (t ++ [closeBracket]))
    by (rewrite length_app; cbn; lia).
  apply splitFrom_skip.
Qed.

Lemma goodSegment_inv (ts : jsstring * jsstring) :
  goodSegment ts = true ->
  goodTitle (fst ts) = true /\ noOpen (snd ts) = true /\ snd ts <> [].
Proof.
  unfold goodSegment. intros H.
  apply andb_true_iff in H as [H H3]. apply andb_true_iff in H as [H1 H2].
  repeat split; try assumption. destruct (snd ts); [discriminate | discriminate].
Qed.

Lemma renderSegments_cons (t seg : jsstring) (rest : list (jsstring * jsstring)) :
  renderSegments ((t, seg) :: rest)
  = openBracket :: t ++ closeBracket :: seg ++ renderSegments rest.
Proof.
  unfold renderSegments. cbn [flat_map renderSegment fst snd app].
  now rewrite <- app_assoc.
Qed.

(** [split] and [filter(Boolean)] on a rendered list of segments. *)
Lemma split_segments (segs : list (jsstring * jsstring)) (acc : jsstring) :
  forallb goodSegment segs = true ->
  filterBoolean (splitFrom O acc (renderSegments segs))
  = filterBoolean [acc] ++ flat_map (fun ts => [fst ts; snd ts]) segs.
Proof.
  revert acc. induction segs as [|[t seg] rest IH]; intros acc H.
  - cbn. now rewrite app_nil_r.
  - cbn [forallb] in H. apply andb_true_iff in H as [Hg Hr].
    apply goodSegment_inv in Hg as [Ht [Hseg Hne]]. cbn [fst snd] in *.
    rewrite renderSegments_cons.
    rewrite splitFrom_marker by assumption.
    rewrite splitFrom_text by assumption. cbn [app].
    change (acc :: t :: ?l) with ([acc] ++ t :: l).
    unfold filterBoolean at 1. rewrite filter_app. fold (filterBoolean [acc]).
    f_equal. cbn [filter flat_map fst snd app].
    destruct t as [|c0 t0]; [discriminate|]. f_equal.
    fold (filterBoolean (splitFrom O seg (renderSegments rest))).
    rewrite IH by assumption.
    destruct seg as [|c1 seg1]; [contradiction|]. reflexivity.
Qed.

Lemma format_pairs (segs : list (jsstring * jsstring)) :
  formatSections (flat_map (fun ts => [fst ts; snd ts]) segs)
  = map sectionOf segs.
Proof.
  induction segs as [|[t seg] rest IH]; [reflexivity|].
  cbn [flat_map app formatSections map fst snd]. now rewrite IH.
Qed.

Lemma parse_segments (segs : list (jsstring * jsstring)) :
  forallb goodSegment segs = true ->
  parseSections (renderSegments segs) = map sectionOf segs.
Proof.
  intros H. unfold parseSections, String_split_marker.
  rewrite split_segments by assumption. cbn [filterBoolean filter app].
  apply format_pairs.
Qed.

(** *** From items to segments *)

Lemma renderItems_segments (items : list Item) :
  renderItems items = tailSpace items ++ renderSegments (segmentsOf items).
Proof.
  induction items as [|[w|t b] r IH]; [reflexivity| |].
  - unfold renderItems in *. cbn [flat_map renderItem tailSpace segmentsOf].
    now rewrite IH, app_assoc.
  - unfold renderItems in *. cbn [flat_map renderItem tailSpace segmentsOf].
    rewrite renderSegments_cons, IH. unfold block.
    cbn [app]. do 2 f_equal. rewrite <- app_assoc. cbn [app].
    now rewrite <- app_assoc.
Qed.

Lemma goodItem_Blk (t b : jsstring) :
  goodItem (Blk t b) = true ->
  goodTitle t = true /\ noOpen b = true /\ notBlank b = true.
Proof.
  cbn [goodItem]. intros H.
  apply andb_true_iff in H as [H H3]. apply andb_true_iff in H as [H1 H2].
  now repeat split.
Qed.

Lemma tailSpace_ws (items : list Item) :
  forallb goodItem items = true -> allWhiteSpace (tailSpace items) = true.
Proof.
  induction items as [|[w|t b] r IH]; intros H; [reflexivity| |reflexivity].
  cbn [forallb goodItem] in H. apply andb_true_iff in H as [Hw Hr].
  cbn [tailSpace]. unfold allWhiteSpace in *. rewrite forallb_app, Hw. now apply IH.
Qed.

Lemma notBlank_app_l (a b : jsstring) : notBlank a = true -> notBlank (a ++ b) = true.
Proof. unfold notBlank. intros H. now rewrite existsb_app, H. Qed.

Lemma notBlank_cons (c : N) (a : jsstring) : notBlank a = true -> notBlank (c :: a) = true.
Proof. unfold notBlank. intros H. cbn [existsb]. rewrite H. apply orb_true_r. Qed.

Lemma segmentsOf_blocks (items : list Item) :
  forallb goodItem items = true ->
  Forall2 (fun ts tb => fst ts = fst tb /\ segmentFor (fst tb) (snd tb) (snd ts))
          (segmentsOf items) (blocksOf items).
Proof.
  induction items as [|[w|t b] r IH]; intros H; [constructor| |].
  - cbn [forallb] in H. apply andb_true_iff in H as [_ Hr]. now apply IH.
  - cbn [forallb] in H. apply andb_true_iff in H as [Hb Hr].
    apply goodItem_Blk in Hb as [Ht [Hno Hnb]].
    pose proof (tailSpace_ws r Hr) as Hws.
    cbn [segmentsOf blocksOf]. constructor; [|now apply IH].
    cbn [fst snd]. split; [reflexivity|]. repeat split.
    + assumption.
    + change (nl :: b ++ tailSpace r) with ([nl] ++ b ++ tailSpace r).
      unfold noOpen in *. rewrite !forallb_app. fold (noOpen (tailSpace r)).
      rewrite Hno, (allWhiteSpace_noOpen _ Hws). reflexivity.
    + apply notBlank_cons. now apply notBlank_app_l.
    + change (nl :: b ++ tailSpace r) with ([nl] ++ b ++ tailSpace r).
      rewrite trim_ws_l by reflexivity. now apply trim_ws_r.
Qed.

Lemma trimEnd_segments_last (init : list (jsstring * jsstring)) (t seg : jsstring) :
  trimEnd (renderSegments (init ++ [(t, seg)]))
  = renderSegments (init ++ [(t, trimEnd seg)]).
Proof.
  assert (E : forall x, renderSegments (init ++ [(t, x)])
                        = (renderSegments init ++ openBracket :: t)
                          ++ closeBracket :: x).
  { intros x. unfold renderSegments. rewrite flat_map_app.
    cbn [flat_map renderSegment fst snd]. rewrite app_nil_r.
    now rewrite <- app_assoc. }
  rewrite !E. now apply trimEnd_app_nonws.
Qed.

Lemma trimStart_segments (segs : list (jsstring * jsstring)) :
  trimStart (renderSegments segs) = renderSegments segs.
Proof. destruct segs as [|[t seg] r]; reflexivity. Qed.

Lemma notBlank_nonempty (s : jsstring) : notBlank s = true -> s <> [].
Proof. destruct s; [discriminate | discriminate]. Qed.

(** The parser on a trimmed document of section 4.4: the blocks, in order. *)
Theorem parse_document (items : list Item) :
  forallb goodItem items = true ->
  parseSections (trim (renderItems items)) = map sectionOf (blocksOf items).
Proof.
  intros H.
  pose proof (segmentsOf_blocks items H) as HF.
  rewrite renderItems_segments, trim_ws_l by now apply tailSpace_ws.
  unfold trim. rewrite trimStart_segments.
  revert HF. generalize (blocksOf items) as blocks.
  generalize (segmentsOf items) as segs.
  intros segs. induction segs as [|x init _] using rev_ind; intros blocks HF.
  - inversion HF; subst. reflexivity.
  - destruct x as [t seg].
    apply Forall2_app_inv_l in HF as [bs1 [bs2 [H1 [H2 ->]]]].
    inversion H2 as [|? [t' b] ? ? [Et Hs] H3]; subst. inversion H3; subst.
    cbn [fst snd] in *. subst t'.
    destruct Hs as [Ht [Hno [Hnb Htrim]]].
    rewrite trimEnd_segments_last, parse_segments.
    + rewrite !map_app. cbn [map]. unfold sectionOf at 2 4. cbn [fst snd].
      rewrite trim_trimEnd, Htrim. f_equal.
      clear -H1. induction H1 as [|[t1 s1] [t2 b2] ? ? [Et [_ [_ [_ Hs]]]] ? IH];
        [reflexivity|]. cbn [map fst snd] in *. subst t2.
      unfold sectionOf at 1 3. cbn [fst snd]. now rewrite Hs, IH.
    + rewrite forallb_app. apply andb_true_iff; split.
      * clear -H1. induction H1 as [|[t1 s1] [t2 b2] ? ? [Et [Ht [Hno [Hnb _]]]] ? IH];
          [reflexivity|]. cbn [forallb fst snd] in *. subst t2.
        rewrite IH, andb_true_r. unfold goodSegment. cbn [fst snd].
        rewrite Ht, Hno. destruct s1; [discriminate | reflexivity].
      * cbn [forallb]. rewrite andb_true_r. unfold goodSegment. cbn [fst snd].
        rewrite Ht, (noOpen_trimEnd _ Hno).
        pose proof (notBlank_trimEnd _ Hnb). destruct (trimEnd seg); [contradiction | reflexivity].
Qed.

(* ================================================================= *)
(** ** Properties of the composer *)

Lemma getAgeBasedAdvice_items (form : FormValues) :
  getAgeBasedAdvice form = renderItems (optBlk (spec_ageBlock form.(age))).
Proof.
  unfold getAgeBasedAdvice, spec_ageBlock; cbv zeta.
  each_branch;
    cbn [optBlk renderItems flat_map renderItem]; rewrite ?app_nil_r;
    reflexivity.
Qed.

Lemma getIncomeBasedAdvice_block (l : Level) :
  getIncomeBasedAdvice l
  = block (fst (spec_incomeBlock l)) (snd (spec_incomeBlock l)).
Proof.
  destruct l; cbn [getIncomeBasedAdvice spec_incomeBlock fst snd]; reflexivity.
Qed.

Lemma getFamilyAdvice_block (hc : bool) (fc : Z) :
  getFamilyAdvice hc fc
  = block (fst (spec_familyBlock hc fc)) (snd (spec_familyBlock hc fc)).
Proof.
  unfold getFamilyAdvice, spec_familyBlock.
  destruct hc; [|destruct (fc >? 1)]; cbn [fst snd]; reflexivity.
Qed.

Lemma getLowSavingsAdvice_items (s t : Z) (hc : bool) (l : Level) :
  getLowSavingsAdvice s t hc l
  = renderItems (optBlk (spec_lowSavingsBlock s t hc l)).
Proof.
  unfold getLowSavingsAdvice, spec_lowSavingsBlock.
  destruct (s <? t); cbn [optBlk renderItems flat_map renderItem];
    rewrite ?app_nil_r; reflexivity.
Qed.

Lemma renderItems_app (a b : list Item) :
  renderItems (a ++ b) = renderItems a ++ renderItems b.
Proof. apply flat_map_app. Qed.

(** The returned template is the rendering of its items. *)
Lemma adviceTemplate_items (form : FormValues) (mi fc : Z) :
  adviceTemplate form mi fc = renderItems (templateItems form mi fc).
Proof.
  unfold adviceTemplate, templateItems; cbv zeta.
  rewrite getAgeBasedAdvice_items, getIncomeBasedAdvice_block,
    getFamilyAdvice_block, getLowSavingsAdvice_items.
  unfold getCareerRiskComparison, getEncouragementMessage, getActionSteps.
  rewrite !renderItems_app.
  unfold renderItems at 1 3 5. cbn [flat_map renderItem].
  rewrite <- !app_assoc. cbn [app]. reflexivity.
Qed.

Lemma blocksOf_app (a b : list Item) :
  blocksOf (a ++ b) = blocksOf a ++ blocksOf b.
Proof.
  induction a as [|[w|t body] r IH]; [reflexivity|exact IH|].
  cbn [app blocksOf]. now rewrite IH.
Qed.

Lemma blocksOf_optBlk (o : option (jsstring * jsstring)) :
  blocksOf (optBlk o) = optList o.
Proof. destruct o as [[t b]|]; reflexivity. Qed.

Lemma blocksOf_templateItems (form : FormValues) (mi fc : Z) :
  blocksOf (templateItems form mi fc) = spec_blocks form mi fc.
Proof.
  unfold templateItems, spec_blocks, spec_tailBlocks, spec_fundingBlock; cbv zeta.
  rewrite !blocksOf_app, !blocksOf_optBlk. cbn [blocksOf app].
  now rewrite <- !surjective_pairing.
Qed.

Lemma noOpen_app (a b : jsstring) : noOpen (a ++ b) = noOpen a && noOpen b.
Proof. apply forallb_app. Qed.

Lemma noOpen_digitsOfUint (d : Decimal.uint) : noOpen (digitsOfUint d) = true.
Proof. induction d; cbn [digitsOfUint noOpen forallb]; try reflexivity; exact IHd. Qed.

Lemma noOpen_numberToString (z : Z) : noOpen (numberToString z) = true.
Proof.
  unfold numberToString. destruct (Z.to_int z); cbn [noOpen forallb];
    apply noOpen_digitsOfUint.
Qed.

Lemma noOpen_getSavingsGoalAdvice (mi sv target : Z) :
  noOpen (getSavingsGoalAdvice mi sv target) = true.
Proof.
  unfold getSavingsGoalAdvice; cbv zeta.
  destruct (target - sv <=? 0);
    rewrite !noOpen_app, ?toLocaleString_plain, ?noOpen_numberToString;
    reflexivity.
Qed.

Lemma fundingBody_good (mi sv three six : Z) :
  noOpen (fundingBody mi sv three six) = true
  /\ notBlank (fundingBody mi sv three six) = true.
Proof.
  unfold fundingBody. split.
  - rewrite !noOpen_app, !toLocaleString_plain, noOpen_getSavingsGoalAdvice.
    reflexivity.
  - apply notBlank_app_l. reflexivity.
Qed.

Lemma spec_ageBlock_good (a : Z) :
  forallb goodItem (optBlk (spec_ageBlock a)) = true.
Proof.
  unfold spec_ageBlock.
  each_branch;
    vm_compute; reflexivity.
Qed.

Lemma spec_incomeBlock_good (l : Level) :
  goodItem (Blk (fst (spec_incomeBlock l)) (snd (spec_incomeBlock l))) = true.
Proof. destruct l; vm_compute; reflexivity. Qed.

Lemma spec_familyBlock_good (hc : bool) (fc : Z) :
  goodItem (Blk (fst (spec_familyBlock hc fc)) (snd (spec_familyBlock hc fc)))
  = true.
Proof.
  unfold spec_familyBlock.
  destruct hc; [|destruct (fc >? 1)]; vm_compute; reflexivity.
Qed.

Lemma spec_lowSavingsBlock_good (sv three : Z) (hc : bool) (l : Level) :
  forallb goodItem (optBlk (spec_lowSavingsBlock sv three hc l)) = true.
Proof.
  unfold spec_lowSavingsBlock.
  destruct (sv <? three); [|reflexivity].
  destruct hc, l; vm_compute; reflexivity.
Qed.

Lemma careerBlock_good (hc : bool) :
  goodItem (Blk careerTitle (careerComparisonBody hc)) = true.
Proof. destruct hc; vm_compute; reflexivity. Qed.

Lemma encouragementBlock_good (rp : RiskProfile) (hc : bool) :
  goodItem (Blk encouragementTitle (encouragementBody rp hc)) = true.
Proof. destruct rp, hc; vm_compute; reflexivity. Qed.

Lemma stepsBlock_good (form : FormValues) (hc : bool) (l : Level) :
  goodItem (Blk stepsTitle (stepsBody form hc l)) = true.
Proof.
  unfold stepsBody, allSteps, getAgeSteps; cbv zeta.
  each_branch;
    destruct l; vm_compute; reflexivity.
Qed.

Lemma templateItems_good (form : FormValues) (mi fc : Z) :
  forallb goodItem (templateItems form mi fc) = true.
Proof.
  unfold templateItems; cbv zeta.
  rewrite !forallb_app, spec_ageBlock_good, spec_lowSavingsBlock_good.
  cbn [forallb].
  rewrite spec_incomeBlock_good, spec_familyBlock_good, careerBlock_good,
    encouragementBlock_good, stepsBlock_good.
  cbn [goodItem].
  destruct (fundingBody_good mi (savings form) (mi * fc * 3) (mi * fc * 6))
    as [-> ->].
  reflexivity.
Qed.

(** The parser on the document of [generateAdvice]. *)
Lemma parse_generateAdvice (form : FormValues) (mi fc : Z) :
  parseSections (generateAdvice form mi fc)
  = map sectionOf (spec_blocks form mi fc).
Proof.
  unfold generateAdvice.
  rewrite adviceTemplate_items, parse_document by apply templateItems_good.
  now rewrite blocksOf_templateItems.
Qed.

(* ================================================================= *)
(** ** Properties of the orderer *)

Section StableSort.

Variable A : Type.
Variable key : A -> Z.

Lemma insertSorted_perm (x : A) (l : list A) :
  Permutation (insertSorted (compareBy key) x l) (x :: l).
Proof.
  induction l as [|y r IH]; cbn [insertSorted]; [reflexivity|].
  destruct (compareBy key x y <=? 0); [reflexivity|].
  rewrite IH. apply perm_swap.
Qed.

Lemma Array_sort_perm (l : list A) : Permutation (Array_sort (compareBy key) l) l.
Proof.
  induction l as [|x r IH]; cbn [Array_sort]; [reflexivity|].
  rewrite insertSorted_perm. now constructor.
Qed.

Lemma insertSorted_sorted (x : A) (l : list A) :
  StronglySorted (keyLeq key) l -> StronglySorted (keyLeq key) (insertSorted (compareBy key) x l).
Proof.
  induction 1 as [|y r Hr IH Hy]; cbn [insertSorted].
  - repeat constructor.
  - destruct (compareBy key x y <=? 0) eqn:E.
    + apply Z.leb_le in E. constructor; [now constructor|].
      constructor; [unfold keyLeq, compareBy in *; lia|].
      eapply Forall_impl; [|exact Hy]. unfold keyLeq, compareBy in *. intros; lia.
    + apply Z.leb_gt in E. constructor; [assumption|].
      eapply Permutation_Forall; [symmetry; apply insertSorted_perm|].
      constructor; [unfold keyLeq, compareBy in *; lia | assumption].
Qed.

Lemma Array_sort_sorted (l : list A) : StronglySorted (keyLeq key) (Array_sort (compareBy key) l).
Proof.
  induction l as [|x r IH]; cbn [Array_sort]; [constructor|].
  now apply insertSorted_sorted.
Qed.

(** Stability: the elements of one key keep their order. *)
Lemma insertSorted_stable (k : Z) (x : A) (l : list A) :
  filter (fun y => key y =? k) (insertSorted (compareBy key) x l)
  = filter (fun y => key y =? k) (x :: l).
Proof.
  induction l as [|y r IH]; cbn [insertSorted]; [reflexivity|].
  destruct (compareBy key x y <=? 0) eqn:E; [reflexivity|].
  apply Z.leb_gt in E. unfold compareBy in E.
  cbn [filter] in *. rewrite IH.
  destruct (key y =? k) eqn:Ey, (key x =? k) eqn:Ex; try reflexivity.
  apply Z.eqb_eq in Ey, Ex. lia.
Qed.

Lemma Array_sort_stable (k : Z) (l : list A) :
  filter (fun y => key y =? k) (Array_sort (compareBy key) l)
  = filter (fun y => key y =? k) l.
Proof.
  induction l as [|x r IH]; cbn [Array_sort]; [reflexivity|].
  rewrite insertSorted_stable. cbn [filter]. now rewrite IH.
Qed.

Lemma StronglySorted_nth (l : list A) :
  StronglySorted (keyLeq key) l ->
  forall i j a b, (i < j)%nat ->
    nth_error l i = Some a -> nth_error l j = Some b -> (keyLeq key) a b.
Proof.
  induction 1 as [|y r Hr IH Hy]; intros i j a b Hij Ha Hb.
  - destruct i; discriminate.
  - destruct j as [|j]; [lia|]. cbn [nth_error] in Hb.
    destruct i as [|i]; cbn [nth_error] in Ha.
    + injection Ha as <-. rewrite Forall_forall in Hy.
      apply Hy. eapply nth_error_In; eassumption.
    + eapply IH; [|eassumption..]. lia.
Qed.

(** In the sorted list a smaller key comes first. *)
Lemma Array_sort_precedes (l : list A) (i j : nat) (a b : A) :
  nth_error (Array_sort (compareBy key) l) i = Some a ->
  nth_error (Array_sort (compareBy key) l) j = Some b ->
  key a < key b -> (i < j)%nat.
Proof.
  intros Ha Hb Hk.
  destruct (Nat.lt_trichotomy i j) as [H|[H|H]]; [assumption| |].
  - subst j. rewrite Ha in Hb. injection Hb as <-. lia.
  - pose proof (StronglySorted_nth _ (Array_sort_sorted l) j i b a H Hb Ha) as G.
    unfold keyLeq in G. lia.
Qed.

Lemma insertSorted_greatest (x : A) (l : list A) :
  Forall (fun y => key y < key x) l -> insertSorted (compareBy key) x l = l ++ [x].
Proof.
  induction 1 as [|y r Hy Hr IH]; cbn [insertSorted app]; [reflexivity|].
  destruct (compareBy key x y <=? 0) eqn:E; [apply Z.leb_le in E; unfold compareBy in E; lia|].
  now rewrite IH.
Qed.

Lemma insertSorted_before_last (x y : A) (l : list A) :
  key y < key x -> insertSorted (compareBy key) y (l ++ [x]) = insertSorted (compareBy key) y l ++ [x].
Proof.
  intros H. induction l as [|z r IH]; cbn [insertSorted app].
  - destruct (compareBy key y x <=? 0) eqn:E; [reflexivity|].
    apply Z.leb_gt in E. unfold compareBy in E. lia.
  - destruct (compareBy key y z <=? 0); [reflexivity|]. now rewrite IH.
Qed.

(** An element whose key is above every other one is sorted last. *)
Lemma Array_sort_greatest (x : A) (l1 l2 : list A) :
  Forall (fun y => key y < key x) (l1 ++ l2) ->
  Array_sort (compareBy key) (l1 ++ x :: l2) = Array_sort (compareBy key) (l1 ++ l2) ++ [x].
Proof.
  induction l1 as [|y r IH]; intros H; cbn [app Array_sort] in *.
  - apply insertSorted_greatest.
    eapply Permutation_Forall; [symmetry; apply Array_sort_perm | assumption].
  - inversion H; subst. rewrite IH by assumption.
    now apply insertSorted_before_last.
Qed.

End StableSort.

(* ================================================================= *)
(** ** The round trip, the ordering law and the age-bracket section *)

Lemma trim_fixed (s : jsstring) :
  startsNonBlank s = true -> endsNonBlank s = true -> trim s = s.
Proof.
  intros Hs He. unfold trim, trimEnd.
  destruct s as [|c r]; [discriminate|].
  cbn [startsNonBlank] in Hs. apply negb_true_iff in Hs.
  cbn [trimStart]. rewrite Hs.
  unfold endsNonBlank in He. destruct (rev (c :: r)) as [|d r'] eqn:E;
    [discriminate|].
  cbn [startsNonBlank] in He. apply negb_true_iff in He.
  cbn [trimStart]. rewrite He, <- E. apply rev_involutive.
Qed.

Lemma startsNonBlank_app (a b : jsstring) :
  startsNonBlank a = true -> startsNonBlank (a ++ b) = true.
Proof. destruct a; [discriminate | trivial]. Qed.

Lemma endsNonBlank_app (a b : jsstring) :
  endsNonBlank b = true -> endsNonBlank (a ++ b) = true.
Proof.
  unfold endsNonBlank. rewrite rev_app_distr. apply startsNonBlank_app.
Qed.

Lemma fundingBody_trimmed (mi sv three six : Z) :
  trim (fundingBody mi sv three six) = fundingBody mi sv three six.
Proof.
  apply trim_fixed.
  - unfold fundingBody. apply startsNonBlank_app. reflexivity.
  - unfold fundingBody, getSavingsGoalAdvice; cbv zeta.
    destruct (three - sv <=? 0); rewrite !app_assoc;
      apply endsNonBlank_app; reflexivity.
Qed.

Lemma spec_blocks_bodies (form : FormValues) (mi fc : Z) :
  Forall bodyKept (spec_blocks form mi fc).
Proof.
  unfold spec_blocks. apply Forall_cons; [left; apply fundingBody_trimmed|].
  apply Forall_app; split.
  - unfold spec_ageBlock.
    each_branch;
      cbn [optList]; each_block; closed_body.
  - unfold spec_tailBlocks; cbv zeta.
    generalize (getRiskProfile (advice_hasChildren form)
                  (getSavingsLevel (savings form) (mi * fc * 3))
                  (getIncomeLevel mi)) as rp.
    generalize (advice_hasChildren form) as hc.
    generalize (getIncomeLevel mi) as l.
    intros l hc rp. each_block.
    + destruct l; closed_body.
    + unfold spec_familyBlock. destruct hc; [|destruct (fc >? 1)]; closed_body.
    + unfold spec_lowSavingsBlock. destruct (savings form <? mi * fc * 3);
        cbn [optList]; each_block. destruct hc, l; closed_body.
    + destruct hc; closed_body.
    + destruct rp, hc; closed_body.
    + unfold bodyKept, stepsBody, allSteps, getAgeSteps; cbv zeta.
      cbn [snd].
      each_branch;
        destruct l; closed_body.
Qed.

(** C3. Round trip: on the document the composer returns for an input of the
    contract, the parser yields the blocks the composer emitted, in order,
    none lost and none added: the same titles, and the same bodies, taken
    without the white space around them (of a body only the line feed the
    template leaves at its end goes). *)
Theorem C3_round_trip (v : FormValues) :
  validInput v ->
  let doc := generateAdvice v v.(monthlyIncome) v.(familyCount) in
  let blocks := spec_blocks v v.(monthlyIncome) v.(familyCount) in
  parseSections doc = map sectionOf blocks
  /\ map title (parseSections doc) = map fst blocks
  /\ map content (parseSections doc) = map (fun tb => trim (snd tb)) blocks
  /\ Forall bodyKept blocks.
Proof.
  intros _ doc blocks. subst doc blocks.
  rewrite parse_generateAdvice, !map_map. cbn [sectionOf title content].
  repeat split; try reflexivity. apply spec_blocks_bodies.
Qed.

Lemma compareSections_by : compareSections = compareBy sectionOrder.
Proof. reflexivity. Qed.

Lemma In_title (t : jsstring) (l : list jsstring) :
  existsb (fun a => if list_eq_dec N.eq_dec t a then true else false) l = true ->
  In t l.
Proof.
  intros H. apply existsb_exists in H as [a [Ha E]].
  destruct (list_eq_dec N.eq_dec t a); [now subst | discriminate].
Qed.

Ltac known_title := apply In_title; vm_compute; reflexivity.

Lemma spec_ageBlock_title (a : Z) (tb : jsstring * jsstring) :
  spec_ageBlock a = Some tb -> In (fst tb) ageTitles.
Proof.
  unfold spec_ageBlock.
  each_branch;
    intros E; try discriminate; injection E as <-; cbn [fst]; known_title.
Qed.

Lemma spec_ageBlock_present (a : Z) :
  a <> 0 -> exists tb, spec_ageBlock a = Some tb.
Proof.
  intros H. unfold spec_ageBlock.
  destruct (a =? 0) eqn:E; [apply Z.eqb_eq in E; contradiction|].
  each_branch;
    eexists; reflexivity.
Qed.

Lemma spec_fundingBlock_title (form : FormValues) (mi fc : Z) :
  In (fst (spec_fundingBlock form mi fc)) fixedTitles.
Proof. cbn [spec_fundingBlock fst]. known_title. Qed.

Lemma spec_tailBlocks_titles (form : FormValues) (mi fc : Z) :
  Forall (fun tb => In (fst tb) fixedTitles) (spec_tailBlocks form mi fc).
Proof.
  unfold spec_tailBlocks; cbv zeta.
  each_block; cbn [fst spec_incomeBlock]; try known_title.
  - unfold spec_familyBlock.
    destruct (advice_hasChildren form); [|destruct (fc >? 1)]; cbn [fst];
      known_title.
  - unfold spec_lowSavingsBlock. destruct (savings form <? mi * fc * 3);
      cbn [optList]; each_block. cbn [fst]. known_title.
Qed.

Lemma fixedTitles_orders :
  Forall (fun t =>
            1 <= getDisplayOrder t <= 7
            /\ isAgeTitle t = false
            /\ (includes t keySpecial = true -> getDisplayOrder t = 1)
            /\ (includes t keyFunding = true -> getDisplayOrder t = 2)
            /\ (includes t keyIncome = true -> getDisplayOrder t = 3))
         fixedTitles.
Proof.
  unfold fixedTitles.
  each_block; (split; [vm_compute; split; discriminate|]);
    (split; [vm_compute; reflexivity|]);
    repeat split; intros H; vm_compute in H; try discriminate;
    vm_compute; reflexivity.
Qed.

Lemma ageTitles_orders :
  Forall (fun t =>
            getDisplayOrder t = 99
            /\ isAgeTitle t = true
            /\ includes t keySpecial = false
            /\ includes t keyFunding = false
            /\ includes t keyIncome = false
            /\ forallb (fun kv => negb (includes t (fst kv))) orderMap = true)
         ageTitles.
Proof. unfold ageTitles. each_block; repeat split; vm_compute; reflexivity. Qed.

(** What a title of the composed document says about its order. *)
Lemma spec_blocks_orders (form : FormValues) (mi fc : Z) :
  Forall (fun tb =>
            let t := fst tb in
            (includes t keySpecial = true -> getDisplayOrder t = 1)
            /\ (includes t keyFunding = true -> getDisplayOrder t = 2)
            /\ (includes t keyIncome = true -> getDisplayOrder t = 3))
         (spec_blocks form mi fc).
Proof.
  pose proof fixedTitles_orders as HF. rewrite Forall_forall in HF.
  pose proof ageTitles_orders as HA. rewrite Forall_forall in HA.
  unfold spec_blocks. apply Forall_cons; [|apply Forall_app; split].
  - cbv zeta. destruct (HF _ (spec_fundingBlock_title form mi fc))
      as [_ [_ [H1 [H2 H3]]]]. split; [|split]; assumption.
  - destruct (spec_ageBlock (age form)) as [tb|] eqn:E; [|apply Forall_nil].
    cbn [optList]. apply Forall_cons; [|apply Forall_nil]. cbv zeta.
    destruct (HA _ (spec_ageBlock_title _ _ E)) as [_ [_ [H1 [H2 [H3 _]]]]].
    split; [|split]; intros H; congruence.
  - eapply Forall_impl; [|apply spec_tailBlocks_titles].
    intros tb Hin. cbv zeta. destruct (HF _ Hin) as [_ [_ [H1 [H2 H3]]]].
    split; [|split]; assumption.
Qed.

Lemma insertSorted_map {A B : Type} (f : A -> B) (keyB : B -> Z)
  (x : A) (l : list A) :
  map f (insertSorted (compareBy (fun a => keyB (f a))) x l)
  = insertSorted (compareBy keyB) (f x) (map f l).
Proof.
  induction l as [|y r IH]; cbn [insertSorted map]; [reflexivity|].
  unfold compareBy at 1 3.
  destruct (keyB (f x) - keyB (f y) <=? 0); cbn [map]; [reflexivity|].
  now rewrite IH.
Qed.

Lemma Array_sort_map {A B : Type} (f : A -> B) (keyB : B -> Z) (l : list A) :
  map f (Array_sort (compareBy (fun a => keyB (f a))) l)
  = Array_sort (compareBy keyB) (map f l).
Proof.
  induction l as [|x r IH]; cbn [Array_sort map]; [reflexivity|].
  now rewrite insertSorted_map, IH.
Qed.

(** The titles of the ordered output are the sorted titles of the blocks. *)
Lemma sorted_titles (form : FormValues) (mi fc : Z) :
  map title (sortedSections (generateAdvice form mi fc))
  = Array_sort (compareBy getDisplayOrder) (map fst (spec_blocks form mi fc)).
Proof.
  unfold sortedSections. rewrite compareSections_by, parse_generateAdvice.
  unfold sectionOrder. rewrite (Array_sort_map title getDisplayOrder).
  now rewrite map_map.
Qed.

Lemma spec_blocks_titles (form : FormValues) (mi fc : Z) :
  map fst (spec_blocks form mi fc)
  = fundingTitle
    :: map fst (optList (spec_ageBlock form.(age)))
    ++ [incomeTitle; fst (spec_familyBlock (advice_hasChildren form) fc)]
    ++ (if form.(savings) <? mi * fc * 3 then [lowSavingsTitle] else [])
    ++ [careerTitle; encouragementTitle; stepsTitle].
Proof.
  unfold spec_blocks, spec_tailBlocks, spec_lowSavingsBlock; cbv zeta.
  cbn [map spec_fundingBlock fst]. rewrite !map_app. cbn [map fst spec_incomeBlock].
  destruct (savings form <? mi * fc * 3); reflexivity.
Qed.

(** The first match decides: the order of any title by the keys it holds. *)
Lemma first_match_orders (t : jsstring) :
  (includes t keySpecial = true -> getDisplayOrder t = 1)
  /\ (includes t keySpecial = false -> includes t keyFunding = true ->
      getDisplayOrder t = 2)
  /\ (includes t keySpecial = false -> includes t keyFunding = false ->
      includes t keyIncome = true -> getDisplayOrder t = 3).
Proof.
  unfold getDisplayOrder, orderMap. cbn [firstMatch].
  fold keySpecial keyFunding keyIncome.
  repeat split; intros; repeat match goal with H : _ = _ |- _ => rewrite H end;
    reflexivity.
Qed.

(** On any text at all, composed or not: in the ordered output a section of
    a smaller order comes first; so a title with the first key precedes one
    with the second key only, which precedes one with the third key only. *)
Lemma ordering_any_document (advice : jsstring) (i j : nat)
  (a b : AdviceSection) :
  nth_error (sortedSections advice) i = Some a ->
  nth_error (sortedSections advice) j = Some b ->
  (getDisplayOrder a.(title) < getDisplayOrder b.(title) -> (i < j)%nat)
  /\ (includes a.(title) keySpecial = true ->
      includes b.(title) keySpecial = false ->
      includes b.(title) keyFunding = true -> (i < j)%nat)
  /\ (includes a.(title) keySpecial = false ->
      includes a.(title) keyFunding = true ->
      includes b.(title) keySpecial = false ->
      includes b.(title) keyFunding = false ->
      includes b.(title) keyIncome = true -> (i < j)%nat).
Proof.
  intros Ha Hb. unfold sortedSections in Ha, Hb.
  rewrite compareSections_by in Ha, Hb.
  pose proof (Array_sort_precedes _ sectionOrder _ _ _ _ _ Ha Hb) as P.
  unfold sectionOrder in P.
  destruct (first_match_orders (title a)) as [A1 [A2 _]].
  destruct (first_match_orders (title b)) as [_ [B2 B3]].
  split; [exact P|split].
  - intros K1 K2 K3. apply P. rewrite (A1 K1), (B2 K2 K3). lia.
  - intros K1 K2 K3 K4 K5. apply P. rewrite (A2 K1 K2), (B3 K3 K4 K5). lia.
Qed.

(** C7. Ordering law: in the parsed and ordered output of a composed
    document, a section whose title contains the first key of the priority
    table comes before any section whose title contains the second, which
    comes before any section whose title contains the third; the three
    sections are there, they open the output. *)
Theorem C7_ordering_law (v : FormValues) :
  validInput v ->
  let out := sortedSections (generateAdvice v v.(monthlyIncome) v.(familyCount)) in
  (forall i j a b,
      nth_error out i = Some a -> nth_error out j = Some b ->
      includes a.(title) keySpecial = true ->
      includes b.(title) keyFunding = true -> (i < j)%nat)
  /\ (forall i j a b,
      nth_error out i = Some a -> nth_error out j = Some b ->
      includes a.(title) keyFunding = true ->
      includes b.(title) keyIncome = true -> (i < j)%nat)
  /\ map title (firstn 3 out) = [encouragementTitle; fundingTitle; incomeTitle].
Proof.
  intros _ out.
  assert (Hin : forall i a, nth_error out i = Some a ->
            (includes a.(title) keySpecial = true -> sectionOrder a = 1)
            /\ (includes a.(title) keyFunding = true -> sectionOrder a = 2)
            /\ (includes a.(title) keyIncome = true -> sectionOrder a = 3)).
  { intros i a Ha. apply nth_error_In in Ha. subst out.
    unfold sortedSections in Ha. rewrite compareSections_by in Ha.
    eapply Permutation_in in Ha; [|apply Array_sort_perm].
    rewrite parse_generateAdvice in Ha.
    apply in_map_iff in Ha as [tb [<- Htb]].
    pose proof (spec_blocks_orders v (monthlyIncome v) (familyCount v)) as HO.
    rewrite Forall_forall in HO. exact (HO tb Htb). }
  split; [|split].
  - intros i j a b Ha Hb Ka Kb.
    destruct (Hin i a Ha) as [H1 _]. destruct (Hin j b Hb) as [_ [H2 _]].
    subst out. unfold sortedSections in Ha, Hb.
    rewrite compareSections_by in Ha, Hb.
    eapply (Array_sort_precedes _ sectionOrder); [exact Ha | exact Hb|].
    rewrite (H1 Ka), (H2 Kb). lia.
  - intros i j a b Ha Hb Ka Kb.
    destruct (Hin i a Ha) as [_ [H2 _]]. destruct (Hin j b Hb) as [_ [_ H3]].
    subst out. unfold sortedSections in Ha, Hb.
    rewrite compareSections_by in Ha, Hb.
    eapply (Array_sort_precedes _ sectionOrder); [exact Ha | exact Hb|].
    rewrite (H2 Ka), (H3 Kb). lia.
  - subst out. rewrite <- firstn_map, sorted_titles, spec_blocks_titles.
    unfold spec_ageBlock, spec_familyBlock.
    destruct (savings v <? monthlyIncome v * familyCount v * 3);
      destruct (advice_hasChildren v); try destruct (familyCount v >? 1);
      each_branch;
      vm_compute; reflexivity.
Qed.

Lemma score_withAge (form : FormValues) (sv mi fc : Z) :
  form.(age) = 0 ->
  calculateRiskScore form sv mi fc = calculateRiskScore (withAge form 35) sv mi fc.
Proof.
  intros H.
  unfold calculateRiskScore, score_beforeFloor, score_childrenCount,
    score_hasChildren, withAge; cbv zeta.
  cbn [age familyStructure hasChildren]. rewrite H. reflexivity.
Qed.

Lemma getAgeBasedAdvice_empty (form : FormValues) :
  getAgeBasedAdvice form = [] <-> form.(age) = 0.
Proof.
  unfold getAgeBasedAdvice; cbv zeta. destruct (age form =? 0) eqn:E.
  - apply Z.eqb_eq in E. tauto.
  - apply Z.eqb_neq in E. split; [|contradiction].
    each_branch;
      unfold block; discriminate.
Qed.

Lemma getAgeSteps_empty (form : FormValues) :
  getAgeSteps form = [] <-> form.(age) = 0.
Proof.
  unfold getAgeSteps; cbv zeta. destruct (age form =? 0) eqn:E.
  - apply Z.eqb_eq in E. tauto.
  - apply Z.eqb_neq in E. split; [|contradiction].
    each_branch;
      unfold ageSteps20, ageSteps30, ageSteps40, ageSteps50; discriminate.
Qed.

(** C8. The age-bracket section is in the composed document iff the raw age
    is not 0, and so are the age steps of the action list. With the age 0
    the score is the one of age 35, while the document holds the funding
    block and the blocks 3 to 8 only, and the action list the common, income
    and children steps only. *)
Theorem C8_age_section (v : FormValues) :
  validInput v ->
  let mi := v.(monthlyIncome) in
  let fc := v.(familyCount) in
  let doc := generateAdvice v mi fc in
  ((exists s, In s (parseSections doc) /\ isAgeTitle s.(title) = true)
   <-> v.(age) <> 0)
  /\ (getAgeBasedAdvice v = [] <-> v.(age) = 0)
  /\ (getAgeSteps v = [] <-> v.(age) = 0)
  /\ (v.(age) = 0 ->
      calculateRiskScore v v.(savings) mi fc
      = calculateRiskScore (withAge v 35) v.(savings) mi fc
      /\ parseSections doc
         = map sectionOf (spec_fundingBlock v mi fc :: spec_tailBlocks v mi fc)
      /\ forall hc l,
           allSteps v hc l
           = commonSteps ++ incomeBasedSteps l
             ++ (if hc then childrenStepsYes else [])).
Proof.
  intros _ mi fc doc. subst doc.
  pose proof fixedTitles_orders as HF. rewrite Forall_forall in HF.
  pose proof ageTitles_orders as HA. rewrite Forall_forall in HA.
  split; [|split; [apply getAgeBasedAdvice_empty|split; [apply getAgeSteps_empty|]]].
  - rewrite parse_generateAdvice. unfold spec_blocks. split.
    + intros [s [Hin Hs]] H0. rewrite H0 in Hin.
      change (spec_ageBlock 0) with (@None (jsstring * jsstring)) in Hin.
      cbn [optList app] in Hin.
      apply in_map_iff in Hin as [tb [<- Htb]]. cbn [sectionOf title] in Hs.
      assert (Ht : In (fst tb) fixedTitles).
      { destruct Htb as [<-|Htb]; [apply spec_fundingBlock_title|].
        pose proof (spec_tailBlocks_titles v mi fc) as HT.
        rewrite Forall_forall in HT. now apply HT. }
      destruct (HF _ Ht) as [_ [Hno _]]. congruence.
    + intros H0. destruct (spec_ageBlock_present _ H0) as [tb E].
      exists (sectionOf tb). rewrite E. split.
      * apply in_map. right. apply in_or_app. left. now left.
      * cbn [sectionOf title].
        destruct (HA _ (spec_ageBlock_title _ _ E)) as [_ [Hyes _]]. exact Hyes.
  - intros H0. split; [now apply score_withAge|]. split.
    + rewrite parse_generateAdvice. unfold spec_blocks. rewrite H0. reflexivity.
    + intros hc l. unfold allSteps, getAgeSteps; cbv zeta. rewrite H0.
      cbn [Z.eqb]. now rewrite app_nil_r.
Qed.

(** C10. The five titles of the age-bracket section match no key of the
    priority table (not the first one either), so their order is 99; in the
    ordered output of a document that holds the age-bracket section, that
    section is the last one, after the action steps and every other section,
    while it is the second block the composer emits. *)
Theorem C10_age_section_last (v : FormValues) :
  validInput v -> v.(age) <> 0 ->
  let doc := generateAdvice v v.(monthlyIncome) v.(familyCount) in
  Forall (fun t => getDisplayOrder t = 99
                   /\ includes t keySpecial = false
                   /\ forallb (fun kv => negb (includes t (fst kv))) orderMap = true)
         ageTitles
  /\ exists ageBlock front,
       spec_ageBlock v.(age) = Some ageBlock
       /\ In (fst ageBlock) ageTitles
       /\ nth_error (parseSections doc) 1 = Some (sectionOf ageBlock)
       /\ sortedSections doc = front ++ [sectionOf ageBlock]
       /\ Forall (fun s => getDisplayOrder s.(title) <= 7) front
       /\ In stepsTitle (map title front).
Proof.
  intros _ H0 doc. subst doc.
  pose proof fixedTitles_orders as HF. rewrite Forall_forall in HF.
  pose proof ageTitles_orders as HA.
  split.
  { eapply Forall_impl; [|exact HA]. cbv beta. intros t H. tauto. }
  rewrite Forall_forall in HA.
  destruct (spec_ageBlock_present _ H0) as [tb E].
  pose proof (spec_ageBlock_title _ _ E) as Htb.
  destruct (HA _ Htb) as [H99 _].
  set (mi := monthlyIncome v). set (fc := familyCount v).
  set (others := [sectionOf (spec_fundingBlock v mi fc)]
                 ++ map sectionOf (spec_tailBlocks v mi fc)).
  assert (Hothers : Forall (fun s => getDisplayOrder s.(title) <= 7) others).
  { subst others. apply Forall_app; split.
    - apply Forall_cons; [|apply Forall_nil]. cbn [sectionOf title].
      destruct (HF _ (spec_fundingBlock_title v mi fc)) as [Hr _]. lia.
    - apply Forall_map. eapply Forall_impl; [|apply spec_tailBlocks_titles].
      intros b Hb. cbn [sectionOf title]. destruct (HF _ Hb) as [Hr _]. lia. }
  assert (Hparse : parseSections (generateAdvice v mi fc)
                   = [sectionOf (spec_fundingBlock v mi fc)]
                     ++ sectionOf tb :: map sectionOf (spec_tailBlocks v mi fc)).
  { rewrite parse_generateAdvice. unfold spec_blocks. rewrite E. reflexivity. }
  exists tb, (Array_sort (compareBy sectionOrder) others).
  split; [exact E|]. split; [exact Htb|]. split; [now rewrite Hparse|].
  split; [|split].
  - unfold sortedSections. rewrite compareSections_by, Hparse.
    apply Array_sort_greatest. fold others.
    eapply Forall_impl; [|exact Hothers]. intros s Hs. cbv beta in Hs.
    unfold sectionOrder. cbn [sectionOf title]. rewrite H99. lia.
  - eapply Permutation_Forall; [symmetry; apply Array_sort_perm | exact Hothers].
  - eapply Permutation_in; [symmetry; apply Permutation_map, Array_sort_perm|].
    subst others. rewrite map_app, map_map. apply in_or_app. right.
    unfold spec_tailBlocks; cbv zeta. rewrite !map_app. cbn [map sectionOf title fst].
    apply in_or_app. right. apply in_or_app. right. right. right. now left.
Qed.

(* ================================================================= *)
(** * Further properties of the code *)

Lemma Q_ge_inject (s c : Z) : Q_ge (inject_Z s) (inject_Z c) = (c <=? s).
Proof.
  unfold Q_ge. apply eq_true_iff_eq. rewrite Qle_bool_iff, Z.leb_le.
  rewrite <- Zle_Qle. reflexivity.
Qed.
Lemma Q_ge_half (s c : Z) : Q_ge (inject_Z s) (inject_Z c / 2) = (c <=? 2 * s).
Proof.
  unfold Q_ge. apply eq_true_iff_eq. rewrite Qle_bool_iff, Z.leb_le.
  unfold Qle, Qdiv, Qmult, Qinv, inject_Z; cbn [Qnum Qden]. lia.
Qed.
Lemma Q_ge_quarter (s c : Z) : Q_ge (inject_Z s) (inject_Z c / 4) = (c <=? 4 * s).
Proof.
  unfold Q_ge. apply eq_true_iff_eq. rewrite Qle_bool_iff, Z.leb_le.
  unfold Qle, Qdiv, Qmult, Qinv, inject_Z; cbn [Qnum Qden]. lia.
Qed.
Lemma Math_round_scaled (s d : Z) :
  0 < d ->
  Math_round ((inject_Z s / inject_Z d * 100) / 3)
  = (200 * s + 3 * d) / (6 * d).
Proof.
  intros Hd. destruct d as [|p|p]; try lia.
  unfold Math_round.
  assert (E : ((inject_Z s / inject_Z (Z.pos p) * 100) / 3 + (1 # 2)
               == (200 * s + 3 * Z.pos p) # (6 * p))%Q).
  { unfold Qeq, Qdiv, Qmult, Qinv, Qplus, inject_Z; cbn [Qnum Qden]. lia. }
  rewrite (Qfloor_comp _ _ E). reflexivity.
Qed.

Lemma scaledScoreOf_integers (s mi fc : Z) :
  0 < mi * fc ->
  scaledScoreOf s mi fc
  = Z.max 40 (Z.min ((200 * s + 3 * (mi * fc)) / (6 * (mi * fc))) 100).
Proof.
  intros Hd. unfold scaledScoreOf; cbv zeta.
  now rewrite Math_round_scaled.
Qed.

Lemma savingsBonusOf_integers (s mi fc : Z) :
  savingsBonusOf s mi fc
  = if mi * fc * 6 <=? s then 10
    else if mi * fc * 6 <=? 2 * s then 7
    else if mi * fc * 6 <=? 4 * s then 5
    else 2.
Proof.
  unfold savingsBonusOf; cbv zeta.
  now rewrite Q_ge_inject, Q_ge_half, Q_ge_quarter.
Qed.

Lemma scaledScoreOf_mono (s1 s2 mi fc : Z) :
  0 < mi * fc -> s1 <= s2 -> scaledScoreOf s1 mi fc <= scaledScoreOf s2 mi fc.
Proof.
  intros Hd Hs. rewrite !scaledScoreOf_integers by assumption.
  assert ((200 * s1 + 3 * (mi * fc)) / (6 * (mi * fc))
          <= (200 * s2 + 3 * (mi * fc)) / (6 * (mi * fc)))
    by (apply Z.div_le_mono; lia).
  lia.
Qed.

Lemma savingsBonusOf_mono (s1 s2 mi fc : Z) :
  s1 <= s2 -> savingsBonusOf s1 mi fc <= savingsBonusOf s2 mi fc.
Proof.
  intros Hs. rewrite !savingsBonusOf_integers.
  repeat match goal with
         | |- context [?a <=? ?b] => destruct (Z.leb_spec a b)
         end; lia.
Qed.

Lemma familyStep_sum_mono (hc : bool) (cc : IntegralNumber) (fc x y : Z) :
  x <= y ->
  snd (familyStep hc cc fc x) + fst (familyStep hc cc fc x)
  <= snd (familyStep hc cc fc y) + fst (familyStep hc cc fc y).
Proof.
  intros H. unfold familyStep; cbv zeta.
  destruct hc; [|destruct (fc >? 1)]; cbn [fst snd]; lia.
Qed.

Lemma score_beforeFloor_eq (form : FormValues) (s mi fc : Z) :
  score_beforeFloor form s mi fc
  = snd (familyStep (score_hasChildren form) (score_childrenCount form fc)
                    fc (scaledScoreOf s mi fc))
    + ageBonusOf (if age form =? 0 then 35 else age form)
    + fst (familyStep (score_hasChildren form) (score_childrenCount form fc)
                      fc (scaledScoreOf s mi fc))
    + incomeBonusOf mi + savingsBonusOf s mi fc.
Proof.
  unfold score_beforeFloor; cbv zeta.
  destruct (familyStep _ _ _ _) as [a b]. reflexivity.
Qed.

(** X1. More savings never lower the score. *)
Theorem score_monotone_in_savings (form : FormValues) (s1 s2 mi fc : Z) :
  1 <= mi -> 1 <= fc -> s1 <= s2 ->
  calculateRiskScore form s1 mi fc <= calculateRiskScore form s2 mi fc.
Proof.
  intros Hmi Hfc Hs. rewrite !calculateRiskScore_eq, !score_beforeFloor_eq.
  assert (Hd : 0 < mi * fc) by nia.
  pose proof (scaledScoreOf_mono s1 s2 mi fc Hd Hs) as H1.
  pose proof (savingsBonusOf_mono s1 s2 mi fc Hs) as H2.
  pose proof (familyStep_sum_mono (score_hasChildren form)
                (score_childrenCount form fc) fc _ _ H1) as H3.
  destruct (score_hasChildren form); cbn [negb]; lia.
Qed.

Lemma ageBonusOf_antitone (a1 a2 : Z) :
  a1 <= a2 -> ageBonusOf a2 <= ageBonusOf a1.
Proof.
  intros H. unfold ageBonusOf.
  repeat match goal with
         | |- context [?a <? ?b] => destruct (Z.ltb_spec a b)
         end; lia.
Qed.

(** X2. Of two ages that are given, the greater never scores higher. *)
Theorem score_antitone_in_age (form : FormValues) (a1 a2 s mi fc : Z) :
  a1 <> 0 -> a2 <> 0 -> a1 <= a2 ->
  calculateRiskScore (withAge form a2) s mi fc
  <= calculateRiskScore (withAge form a1) s mi fc.
Proof.
  intros H1 H2 H. rewrite !calculateRiskScore_eq, !score_beforeFloor_eq.
  change (score_hasChildren (withAge form a2))
    with (score_hasChildren form).
  change (score_hasChildren (withAge form a1))
    with (score_hasChildren form).
  change (score_childrenCount (withAge form a2) fc)
    with (score_childrenCount form fc).
  change (score_childrenCount (withAge form a1) fc)
    with (score_childrenCount form fc).
  cbn [age withAge].
  apply Z.eqb_neq in H1, H2. rewrite H1, H2.
  pose proof (ageBonusOf_antitone a1 a2 H).
  destruct (score_hasChildren form); cbn [negb]; lia.
Qed.

(** X3. With children: each child up to three takes ten points. *)
Theorem score_with_children (form : FormValues) (s mi fc : Z) :
  score_hasChildren form = true ->
  let m := Math_min 3 (score_childrenCount form fc) in
  0 <= m <= 3
  /\ score_beforeFloor form s mi fc
     = Z.max 65 (scaledScoreOf s mi fc) - 10 * m
       + ageBonusOf (if age form =? 0 then 35 else age form)
       + incomeBonusOf mi + savingsBonusOf s mi fc
  /\ calculateRiskScore form s mi fc
     = Z.min 100 (score_beforeFloor form s mi fc).
Proof.
  intros Hc m. subst m.
  pose proof (Math_min_childrenCount form fc).
  split; [lia|]. split.
  - rewrite score_beforeFloor_eq, Hc. unfold familyStep; cbv zeta.
    cbn [fst snd]. lia.
  - rewrite calculateRiskScore_eq, Hc. reflexivity.
Qed.

(** X4. Of two profiles with children that differ in the family text only,
    the one with more children never scores higher, and beyond three
    children the count does not matter. *)
Theorem score_antitone_in_children (f1 f2 : FormValues) (s mi fc : Z) :
  score_hasChildren f1 = true -> score_hasChildren f2 = true ->
  age f1 = age f2 ->
  (Number_le (score_childrenCount f1 fc) (score_childrenCount f2 fc) ->
   calculateRiskScore f2 s mi fc <= calculateRiskScore f1 s mi fc)
  /\ (Number_le (Finite 3) (score_childrenCount f1 fc) ->
      Number_le (Finite 3) (score_childrenCount f2 fc) ->
      calculateRiskScore f2 s mi fc = calculateRiskScore f1 s mi fc).
Proof.
  intros H1 H2 Ha.
  pose proof (Math_min_childrenCount f1 fc).
  pose proof (Math_min_childrenCount f2 fc).
  rewrite !calculateRiskScore_eq, !score_beforeFloor_eq, H1, H2, Ha.
  unfold familyStep; cbv zeta. cbn [fst snd negb].
  destruct (score_childrenCount f1 fc) as [c1|],
           (score_childrenCount f2 fc) as [c2|];
    cbn [Math_min Number_le] in *; split; intros; lia.
Qed.

(** X5. Without children the status is the one of the highest band. *)
Theorem no_children_top_status (form : FormValues) (s mi fc : Z) :
  score_hasChildren form = false ->
  let score := calculateRiskScore form s mi fc in
  80 <= score <= 100
  /\ getRiskStatus score = utf16 "絶好のタイミング"
  /\ getProgressColor score = utf16 "bg-blue-500"
  /\ iconName (getStatusIcon score) = utf16 "Rocket".
Proof.
  intros Hc score.
  assert (H : 80 <= score <= 100).
  { subst score. rewrite calculateRiskScore_eq, Hc. cbn [negb]. lia. }
  clearbody score. split; [exact H|].
  unfold getRiskStatus, getProgressColor, getStatusIcon.
  destruct (Z.leb_spec score 40); [lia|].
  destruct (Z.leb_spec score 70); [lia|].
  repeat split.
Qed.

Lemma step_function_bands {A : Type} (a b c : A) (s1 s2 : Z) :
  a <> b -> a <> c -> b <> c ->
  ((if s1 <=? 40 then a else if s1 <=? 70 then b else c)
   = (if s2 <=? 40 then a else if s2 <=? 70 then b else c)
   <-> ((s1 <= 40 <-> s2 <= 40) /\ (s1 <= 70 <-> s2 <= 70))).
Proof.
  intros Hab Hac Hbc.
  destruct (Z.leb_spec s1 40) as [L1|L1], (Z.leb_spec s1 70) as [L2|L2],
    (Z.leb_spec s2 40) as [L3|L3], (Z.leb_spec s2 70) as [L4|L4]; try lia;
    split; intros H; try reflexivity; try lia;
    try (exfalso; first [apply Hab; exact H | apply Hac; exact H
                        | apply Hbc; exact H
                        | apply Hab; symmetry; exact H
                        | apply Hac; symmetry; exact H
                        | apply Hbc; symmetry; exact H]).
Qed.
Ltac distinct_literals :=
  let H := fresh "H" in intros H; vm_compute in H; discriminate H.

Lemma getRiskStatus_bands (s1 s2 : Z) :
  getRiskStatus s1 = getRiskStatus s2
  <-> ((s1 <= 40 <-> s2 <= 40) /\ (s1 <= 70 <-> s2 <= 70)).
Proof.
  unfold getRiskStatus.
  assert (H1 : utf16 "検討段階" <> utf16 "準備OK") by distinct_literals.
  assert (H2 : utf16 "検討段階" <> utf16 "絶好のタイミング") by distinct_literals.
  assert (H3 : utf16 "準備OK" <> utf16 "絶好のタイミング") by distinct_literals.
  exact (step_function_bands _ _ _ s1 s2 H1 H2 H3).
Qed.

Lemma getProgressColor_bands (s1 s2 : Z) :
  getProgressColor s1 = getProgressColor s2
  <-> ((s1 <= 40 <-> s2 <= 40) /\ (s1 <= 70 <-> s2 <= 70)).
Proof.
  unfold getProgressColor.
  assert (H1 : utf16 "bg-amber-500" <> utf16 "bg-emerald-500") by distinct_literals.
  assert (H2 : utf16 "bg-amber-500" <> utf16 "bg-blue-500") by distinct_literals.
  assert (H3 : utf16 "bg-emerald-500" <> utf16 "bg-blue-500") by distinct_literals.
  exact (step_function_bands _ _ _ s1 s2 H1 H2 H3).
Qed.

Lemma getStatusIcon_bands (s1 s2 : Z) :
  getStatusIcon s1 = getStatusIcon s2
  <-> ((s1 <= 40 <-> s2 <= 40) /\ (s1 <= 70 <-> s2 <= 70)).
Proof.
  unfold getStatusIcon.
  assert (H1 : mkIcon (utf16 "AlertTriangle") (utf16 "h-5 w-5 text-amber-500") None
               <> mkIcon (utf16 "CheckCircle") (utf16 "h-5 w-5 text-emerald-500") None)
    by distinct_literals.
  assert (H2 : mkIcon (utf16 "AlertTriangle") (utf16 "h-5 w-5 text-amber-500") None
               <> mkIcon (utf16 "Rocket") (utf16 "h-5 w-5 text-blue-500") None)
    by distinct_literals.
  assert (H3 : mkIcon (utf16 "CheckCircle") (utf16 "h-5 w-5 text-emerald-500") None
               <> mkIcon (utf16 "Rocket") (utf16 "h-5 w-5 text-blue-500") None)
    by distinct_literals.
  exact (step_function_bands _ _ _ s1 s2 H1 H2 H3).
Qed.

Lemma getStatusDescription_bands (s1 s2 : Z) :
  getStatusDescription s1 = getStatusDescription s2
  <-> ((s1 <= 40 <-> s2 <= 40) /\ (s1 <= 70 <-> s2 <= 70)).
Proof.
  unfold getStatusDescription.
  assert (H1 : utf16 "起業に向けて準備を始めるタイミングです。副業から始めて、徐々にステップアップしていきましょう。"
               <> utf16 "起業の準備が整いつつあります。計画を具体化して、行動に移すタイミングです。")
    by distinct_literals.
  assert (H2 : utf16 "起業に向けて準備を始めるタイミングです。副業から始めて、徐々にステップアップしていきましょう。"
               <> utf16 "起業に最適なタイミングです！あなたの情熱とアイデアを形にするチャンスです。")
    by distinct_literals.
  assert (H3 : utf16 "起業の準備が整いつつあります。計画を具体化して、行動に移すタイミングです。"
               <> utf16 "起業に最適なタイミングです！あなたの情熱とアイデアを形にするチャンスです。")
    by distinct_literals.
  exact (step_function_bands _ _ _ s1 s2 H1 H2 H3).
Qed.

(** X6. The label of the form and what RiskResult shows from the score. *)
Theorem status_display_agrees (s1 s2 : Z) :
  (getRiskStatus s1 = getRiskStatus s2
   <-> ((s1 <= 40 <-> s2 <= 40) /\ (s1 <= 70 <-> s2 <= 70)))
  /\ (getRiskStatus s1 = getRiskStatus s2
      <-> getProgressColor s1 = getProgressColor s2)
  /\ (getRiskStatus s1 = getRiskStatus s2
      <-> getStatusIcon s1 = getStatusIcon s2)
  /\ (getRiskStatus s1 = getRiskStatus s2
      <-> getStatusDescription s1 = getStatusDescription s2).
Proof.
  pose proof (getRiskStatus_bands s1 s2) as L.
  pose proof (getProgressColor_bands s1 s2) as C.
  pose proof (getStatusIcon_bands s1 s2) as I.
  pose proof (getStatusDescription_bands s1 s2) as D.
  revert L C I D.
  generalize (getRiskStatus s1 = getRiskStatus s2) as P1.
  generalize (getProgressColor s1 = getProgressColor s2) as P2.
  generalize (getStatusIcon s1 = getStatusIcon s2) as P3.
  generalize (getStatusDescription s1 = getStatusDescription s2) as P4.
  generalize ((s1 <= 40 <-> s2 <= 40) /\ (s1 <= 70 <-> s2 <= 70)) as B.
  intros B P4 P3 P2 P1 L C I D. tauto.
Qed.
(** X7. Savings of three months of cost or more give the full base score
    of 100, and a profile without children then scores 100; savings up to
    1.2 months of cost leave the base score at its floor of 40. *)
Theorem scaledScore_saturation (form : FormValues) (s mi fc : Z) :
  1 <= mi -> 1 <= fc ->
  let d := mi * fc in
  (3 * d <= s ->
   scaledScoreOf s mi fc = 100
   /\ (score_hasChildren form = false ->
       calculateRiskScore form s mi fc = 100))
  /\ (5 * s <= 6 * d -> scaledScoreOf s mi fc = 40).
Proof.
  intros Hmi Hfc d. assert (Hd : 0 < d) by (subst d; nia).
  pose proof (scaledScoreOf_integers s mi fc Hd) as E. fold d in E.
  pose proof (Z.div_mod (200 * s + 3 * d) (6 * d) ltac:(lia)) as D.
  pose proof (Z.mod_pos_bound (200 * s + 3 * d) (6 * d) ltac:(lia)) as B.
  set (q := (200 * s + 3 * d) / (6 * d)) in *.
  set (r := (200 * s + 3 * d) mod (6 * d)) in *.
  split.
  - intros H. assert (F : scaledScoreOf s mi fc = 100) by (rewrite E; nia).
    split; [exact F|]. intros Hc.
    rewrite calculateRiskScore_eq, Hc, score_beforeFloor_eq, Hc, F.
    cbn [negb]. unfold familyStep.
    pose proof (ageBonusOf_bounds (if age form =? 0 then 35 else age form)).
    pose proof (incomeBonusOf_bounds mi).
    pose proof (savingsBonusOf_bounds s mi fc).
    destruct (fc >? 1); cbn [fst snd]; lia.
  - intros H. rewrite E. nia.
Qed.





(** X9. The risk profile by cases: with children it is never the middle one,
    without children never one of the two highest, and the lowest asks for
    both levels high whatever the children. *)
Theorem riskProfile_cases (hc : bool) (sl il : Level) :
  (getRiskProfile hc sl il = highest <-> hc = true /\ sl = low /\ il = low)
  /\ (getRiskProfile hc sl il = highRisk
      <-> hc = true /\ ~ (sl = low /\ il = low) /\ ~ (sl = high /\ il = high))
  /\ (getRiskProfile hc sl il = mediumRisk
      <-> hc = false /\ ~ (sl = high /\ il = high))
  /\ (getRiskProfile hc sl il = lowRisk <-> sl = high /\ il = high).
Proof.
  destruct hc, sl, il; cbn; repeat split; intros;
    try discriminate; try reflexivity; try tauto;
    repeat match goal with
           | H : _ /\ _ |- _ => destruct H
           | H : ~ (_ /\ _) |- _ => contradiction H; split; reflexivity
           end; try discriminate;
    try (intros [? ?]; discriminate).
Qed.

(** X10. The message of encouragement the composer picks: without children
    it is the general one whatever the levels, the low-risk profile too; with
    children it follows the two levels. *)
Theorem encouragement_selection (hc : bool) (sl il : Level) :
  encouragementBody (getRiskProfile hc sl il) hc
  = if hc
    then if Level_eqb sl low && Level_eqb il low then encouragementBodyHighest
         else if Level_eqb sl high && Level_eqb il high
              then encouragementBodyChildren
              else encouragementBodyHigh
    else encouragementBodyDefault.
Proof. destruct hc, sl, il; cbn [getRiskProfile encouragementBody Level_eqb andb orb negb]; reflexivity. Qed.



(** X12. The action list: six steps, three more with children, three more
    with an age. *)
Theorem actionSteps_count (form : FormValues) (hc : bool) (l : Level) :
  List.length (allSteps form hc l)
  = (6 + (if hc then 3 else 0) + (if (age form =? 0)%Z then 0 else 3))%nat
  /\ (6 <= List.length (allSteps form hc l) <= 12)%nat.
Proof.
  unfold allSteps, getAgeSteps; cbv zeta. rewrite !length_app.
  destruct hc, l, (age form =? 0); each_branch; cbn; lia.
Qed.

Lemma numberSteps_nth (steps : list jsstring) (index : Z) (k : nat)
  (step : jsstring) :
  nth_error steps k = Some step ->
  nth_error (numberSteps index steps) k
  = Some (numberToString (index + Z.of_nat k + 1) ++ utf16 ". " ++ step).
Proof.
  revert index k. induction steps as [|x r IH]; intros index k H.
  - destruct k; discriminate.
  - destruct k as [|k]; cbn [nth_error numberSteps] in *.
    + injection H as ->. now rewrite Z.add_0_r.
    + rewrite (IH (index + 1) k H). do 3 f_equal. lia.
Qed.

Lemma numberSteps_length (steps : list jsstring) (index : Z) :
  List.length (numberSteps index steps) = List.length steps.
Proof.
  revert index. induction steps as [|x r IH]; intros index; [reflexivity|].
  cbn [numberSteps List.length]. now rewrite IH.
Qed.

(** X13. The numbering of the action list starts at 1 and has no gap. *)
Theorem actionSteps_numbering (form : FormValues) (hc : bool) (l : Level)
  (k : nat) (step : jsstring) :
  nth_error (allSteps form hc l) k = Some step ->
  nth_error (numberSteps 0 (allSteps form hc l)) k
  = Some (numberToString (Z.of_nat k + 1) ++ utf16 ". " ++ step)
  /\ List.length (numberSteps 0 (allSteps form hc l))
     = List.length (allSteps form hc l).
Proof.
  intros H. split; [|apply numberSteps_length].
  now rewrite (numberSteps_nth _ 0 k step H).
Qed.





(** X15. A text without opening bracket, the empty one too, has no section. *)
Theorem parse_without_marker (advice : jsstring) :
  noOpen advice = true ->
  String_split_marker advice = [advice]
  /\ parseSections advice = []
  /\ sortedSections advice = []
  /\ renderAdviceSection advice = [].
Proof.
  intros H.
  assert (E : String_split_marker advice = [advice]).
  { unfold String_split_marker. rewrite <- (app_nil_r advice) at 1.
    now rewrite splitFrom_text. }
  assert (P : parseSections advice = []).
  { unfold parseSections. rewrite E. destruct advice; reflexivity. }
  split; [exact E|]. split; [exact P|].
  unfold renderAdviceSection, sortedSections. rewrite P. split; reflexivity.
Qed.

(** X16. A text ahead of the first marker is taken for a title: the pairs
    shift, each title becomes the body of what precedes it. *)
Theorem leading_text_shifts_pairs (pre t seg : jsstring)
  (rest : list (jsstring * jsstring)) :
  pre <> [] -> noOpen pre = true ->
  forallb goodSegment ((t, seg) :: rest) = true ->
  parseSections (pre ++ renderSegments ((t, seg) :: rest))
  = mkSection pre (trim t)
    :: formatSections (seg :: flat_map (fun ts => [fst ts; snd ts]) rest).
Proof.
  intros Hne Hpre Hgood. unfold parseSections, String_split_marker.
  rewrite splitFrom_text by assumption. cbn [app].
  rewrite split_segments by assumption.
  destruct pre as [|c r]; [contradiction|]. reflexivity.
Qed.

Lemma trimStart_head (s : jsstring) :
  trimStart s = [] \/ startsNonBlank (trimStart s) = true.
Proof.
  induction s as [|c r IH]; [now left|].
  cbn [trimStart]. destruct (isWhiteSpace c) eqn:E; [exact IH|].
  right. cbn [startsNonBlank]. now rewrite E.
Qed.

Lemma trimEnd_cons_nonws (c : N) (r : jsstring) :
  isWhiteSpace c = false -> trimEnd (c :: r) = c :: trimEnd r.
Proof. exact (trimEnd_app_nonws [] r c). Qed.

Lemma trim_head (s : jsstring) :
  trim s = [] \/ (startsNonBlank (trim s) = true /\ endsNonBlank (trim s) = true).
Proof.
  unfold trim. destruct (trimStart_head s) as [E|E].
  - left. rewrite E. reflexivity.
  - right. destruct (trimStart s) as [|c r]; [discriminate|].
    cbn [startsNonBlank] in E. apply negb_true_iff in E.
    split.
    + rewrite trimEnd_cons_nonws by exact E. cbn [startsNonBlank]. now rewrite E.
    + unfold endsNonBlank.
      assert (Hne : trimEnd (c :: r) <> [])
        by (rewrite trimEnd_cons_nonws by exact E; discriminate).
      unfold trimEnd in *. rewrite rev_involutive.
      destruct (trimStart_head (rev (c :: r))) as [F|F]; [|exact F].
      rewrite F in Hne. now contradiction Hne.
Qed.

Lemma trim_idempotent (s : jsstring) : trim (trim s) = trim s.
Proof.
  destruct (trim_head s) as [E|[H1 H2]].
  - rewrite E. reflexivity.
  - now apply trim_fixed.
Qed.

Lemma formatSections_shape (l : list jsstring) :
  Forall (fun x => x <> []) l ->
  Forall (fun s => title s <> [] /\ trim (content s) = content s
                   /\ exists b, In b l /\ content s = trim b /\ In (title s) l)
         (formatSections l).
Proof.
  revert l.
  fix IH 1. intros l H. destruct l as [|t [|b r]]; [constructor|constructor|].
  cbn [formatSections]. inversion H as [|? ? Ht H']; subst.
  inversion H' as [|? ? Hb H'']; subst.
  constructor.
  - cbn [title content]. split; [exact Ht|]. split; [apply trim_idempotent|].
    exists b. split; [right; now left|]. split; [reflexivity | now left].
  - eapply Forall_impl; [|apply IH; exact H''].
    intros s [A [B [b' [C [D E]]]]]. split; [exact A|]. split; [exact B|].
    exists b'. split; [right; right; exact C|]. split; [exact D|].
    right; right; exact E.
Qed.

(** X17. Whatever the text, a parsed section has a title that is not empty
    and a content without white space at its ends; ordering keeps that. *)
Theorem parsed_sections_shape (advice : jsstring) (s : AdviceSection) :
  In s (parseSections advice) \/ In s (sortedSections advice) ->
  title s <> [] /\ trim (content s) = content s.
Proof.
  intros H.
  assert (Hin : In s (parseSections advice)).
  { destruct H as [H|H]; [exact H|].
    unfold sortedSections in H. rewrite compareSections_by in H.
    eapply Permutation_in; [apply Array_sort_perm | exact H]. }
  unfold parseSections in Hin.
  assert (HF : Forall (fun x : jsstring => x <> [])
                      (filterBoolean (String_split_marker advice))).
  { apply Forall_forall. intros x Hx. unfold filterBoolean in Hx.
    apply filter_In in Hx as [_ Hx]. destruct x; [discriminate | discriminate]. }
  pose proof (formatSections_shape _ HF) as G. rewrite Forall_forall in G.
  destruct (G s Hin) as [A [B _]]. split; assumption.
Qed.

(** X18. Whatever the text, the ordered output holds the parsed sections, each
    once, in ascending display order, and sections of one order stay in the
    order they were parsed in. *)
Theorem sortedSections_stable_sort (advice : jsstring) :
  Permutation (sortedSections advice) (parseSections advice)
  /\ StronglySorted (fun a b => getDisplayOrder a.(title) <= getDisplayOrder b.(title))
                    (sortedSections advice)
  /\ forall k, filter (fun s => getDisplayOrder s.(title) =? k) (sortedSections advice)
               = filter (fun s => getDisplayOrder s.(title) =? k) (parseSections advice).
Proof.
  unfold sortedSections. rewrite compareSections_by.
  split; [apply Array_sort_perm|]. split.
  - exact (Array_sort_sorted _ sectionOrder _).
  - intros k. exact (Array_sort_stable _ sectionOrder k _).
Qed.

Lemma firstMatch_cases (t : jsstring) (table : list (jsstring * Z)) :
  (firstMatch t table = 99
   /\ Forall (fun kv => includes t (fst kv) = false) table)
  \/ (exists kv, In kv table /\ includes t (fst kv) = true
                 /\ firstMatch t table = snd kv).
Proof.
  induction table as [|[k v] r IH]; [left; split; [reflexivity | constructor]|].
  cbn [firstMatch]. destruct (includes t k) eqn:E.
  - right. exists (k, v). split; [now left | split; [exact E | reflexivity]].
  - destruct IH as [[H1 H2]|[kv [H1 [H2 H3]]]].
    + left. split; [exact H1 | constructor; [exact E | exact H2]].
    + right. exists kv. split; [now right | split; assumption].
Qed.

Lemma firstMatch_cons (t k : jsstring) (v : Z) (r : list (jsstring * Z)) :
  firstMatch t ((k, v) :: r) = if includes t k then v else firstMatch t r.
Proof. reflexivity. Qed.

Lemma getDisplayOrder_unmatched (t : jsstring) :
  getDisplayOrder t = 99
  <-> Forall (fun kv => includes t (fst kv) = false) orderMap.
Proof.
  unfold getDisplayOrder.
  destruct (firstMatch_cases t orderMap) as [[H1 H2]|[kv [H1 [H2 H3]]]].
  - tauto.
  - split.
    + intros H. exfalso. rewrite H in H3.
      unfold orderMap in H1. cbn [In] in H1.
      repeat (destruct H1 as [<-|H1]; [cbn [snd] in H3; discriminate|]).
      exact H1.
    + intros H. rewrite Forall_forall in H. rewrite (H kv H1) in H2. discriminate.
Qed.

Lemma unmatched_key (t k : jsstring) :
  includes t k = true ->
  Forall (fun kv => includes t (fst kv) = false) orderMap ->
  In k (map fst orderMap) -> False.
Proof.
  intros E HF Hin. apply in_map_iff in Hin as [kv [<- Hkv]].
  rewrite Forall_forall in HF. rewrite (HF kv Hkv) in E. discriminate.
Qed.

(** X19. An order is one of the table or 99, and the orderer and the icons go
    by the same keys: a title gets a default icon iff its order is 99, and
    it is highlighted iff its order is 1. *)
Theorem icon_and_order_keys (t : jsstring) (index : nat) :
  (1 <= getDisplayOrder t <= 7 \/ getDisplayOrder t = 99)
  /\ (getDisplayOrder t = 99
      <-> getSectionIcon t index = nth (index mod 3) defaultIcons (mkIcon [] [] None))
  /\ (getDisplayOrder t <> 99 <-> iconKey (getSectionIcon t index) = None)
  /\ (getDisplayOrder t = 1 <-> includes t (utf16 "あなたへの特別") = true).
Proof.
  assert (Hd : forall n, (n < 3)%nat ->
             iconKey (nth n defaultIcons (mkIcon [] [] None)) <> None).
  { intros n Hn. destruct n as [|[|[|n]]]; try lia; discriminate. }
  pose proof (Hd (index mod 3)%nat (Nat.mod_upper_bound index 3 ltac:(lia))) as Hk.
  assert (R : 1 <= getDisplayOrder t <= 7 \/ getDisplayOrder t = 99).
  { unfold getDisplayOrder.
    destruct (firstMatch_cases t orderMap) as [[H1 _]|[kv [H1 [_ H3]]]];
      [now right|].
    left. rewrite H3. unfold orderMap in H1. cbn [In] in H1.
    repeat (destruct H1 as [<-|H1]; [cbn [snd]; lia|]). contradiction. }
  assert (F : getDisplayOrder t = 1 <-> includes t (utf16 "あなたへの特別") = true).
  { unfold getDisplayOrder, orderMap. rewrite firstMatch_cons.
    destruct (includes t (utf16 "あなたへの特別")); [tauto|].
    split; [|discriminate]. intros H. exfalso.
    match type of H with firstMatch t ?tbl = 1 =>
      destruct (firstMatch_cases t tbl) as [[H1 _]|[kv [H1 [_ H3]]]] end.
    - rewrite H1 in H. discriminate.
    - rewrite H3 in H. cbn [In] in H1.
      repeat (destruct H1 as [<-|H1]; [cbn [snd] in H; discriminate|]).
      contradiction. }
  assert (I : (getDisplayOrder t = 99
               /\ getSectionIcon t index
                  = nth (index mod 3) defaultIcons (mkIcon [] [] None))
              \/ (getDisplayOrder t <> 99
                  /\ iconKey (getSectionIcon t index) = None)).
  { rewrite getDisplayOrder_unmatched. unfold getSectionIcon, orderMap.
    cbn [List.length].
    repeat match goal with
           | |- context [if includes t ?k then _ else _] =>
             let E := fresh "E" in
             destruct (includes t k) eqn:E;
             [right; split; [|reflexivity]; intros HF;
              apply (unmatched_key t k E HF); apply In_title;
              vm_compute; reflexivity|]
           end.
    left. split; [|reflexivity]. each_block; cbn [fst]; assumption. }
  split; [exact R|]. split; [|split; [|exact F]].
  - destruct I as [[I1 I2]|[I1 I2]]; split; intros H; try assumption.
    + contradiction.
    + exfalso. rewrite H in I2. now apply Hk.
  - destruct I as [[I1 I2]|[I1 I2]]; split; intros H; try assumption.
    + contradiction.
    + exfalso. rewrite I2 in H. now apply Hk.
Qed.





(** X21. The handler of the family field stores the text and sets the flag from
    it: after an edit the derived hasChildren of the score and of the advice
    are the stored flag, whatever the flag was before; the other fields are
    kept, and of two edits in a row only the second counts. *)
Theorem family_edit_sets_flag (form : FormValues) (value : jsstring) :
  let edited := onFamilyStructureChange form value in
  familyStructure edited = value
  /\ score_hasChildren edited = hasChildren edited
  /\ advice_hasChildren edited = hasChildren edited
  /\ (familyCount edited, age edited, savings edited, monthlyIncome edited)
     = (familyCount form, age form, savings form, monthlyIncome form)
  /\ (forall earlier : jsstring,
        onFamilyStructureChange (onFamilyStructureChange form earlier) value
        = edited).
Proof.
  intros edited. subst edited.
  unfold onFamilyStructureChange, score_hasChildren, advice_hasChildren;
    cbv zeta.
  cbn [familyStructure hasChildren familyCount age savings monthlyIncome].
  repeat split.
  - destruct (includes (toLowerCase value) (utf16 "子"));
      destruct (includes (toLowerCase value) (utf16 "こども"));
      destruct (includes (toLowerCase value) (utf16 "子供")); reflexivity.
  - destruct (includes (toLowerCase value) (utf16 "子"));
      destruct (includes (toLowerCase value) (utf16 "こども"));
      destruct (includes (toLowerCase value) (utf16 "子供")); reflexivity.
Qed.

(** The composed text is never empty. *)
Lemma generateAdvice_nonempty (form : FormValues) (mi fc : Z) :
  generateAdvice form mi fc <> [].
Proof.
  intros E. pose proof (parse_generateAdvice form mi fc) as P.
  rewrite E in P. unfold spec_blocks in P. cbn [map] in P.
  change (parseSections []) with (@nil AdviceSection) in P. discriminate P.
Qed.

(** X22. The row [onSubmit] hands to the data store holds the four fields of
    the form that are stored, the score and the status that are shown, and
    the composed text itself: [advice || null] gives [null] for an absent or
    an empty text only, and the composed text is never empty. *)
Theorem submitted_row (now : jsstring) (values : FormValues) :
  let '(score, status, advice) := onSubmit values in
  (forall text : option jsstring,
     row_advice (assessmentRow now values score status text) = None
     <-> text = None \/ text = Some [])
  /\ assessmentRow now values score status (Some advice)
     = mkRow (familyStructure values) (familyCount values) (savings values)
             (monthlyIncome values)
             (calculateRiskScore values (savings values) (monthlyIncome values)
                                 (familyCount values))
             (getRiskStatus
                (calculateRiskScore values (savings values)
                                    (monthlyIncome values) (familyCount values)))
             (Some (generateAdvice values (monthlyIncome values)
                                   (familyCount values)))
             now.
Proof.
  unfold onSubmit; cbv zeta. split.
  - intros text. unfold assessmentRow. cbn [row_advice]. unfold orNull.
    destruct text as [[|c r]|]; split; intros H;
      try reflexivity; try discriminate H; auto.
    destruct H as [H|H]; discriminate H.
  - unfold assessmentRow, orNull.
    pose proof (generateAdvice_nonempty values (monthlyIncome values)
                                        (familyCount values)) as N.
    destruct (generateAdvice values (monthlyIncome values) (familyCount values))
      as [|c r]; [contradiction N; reflexivity | reflexivity].
Qed.

(** X23. [onSubmit] locks the button, then shows the result. When the save
    settles, or there is no connection, the button is released whatever the
    outcome: a failed save leaves two lines on the console and nothing else,
    a missing connection one warning, a good save none. When the insert
    stays pending, and only then, the save never settles: the result is
    shown, nothing is logged and the button stays locked. *)
Theorem submit_settles_with_store (supabase : option Client) (now : jsstring)
  (values : FormValues) (state : FormState) :
  let '(states, log) := onSubmit_steps supabase now values state in
  let '(score, status, advice) := onSubmit values in
  let saved := fst (saveAssessmentData supabase now values score status
                                       (Some advice)) in
  let locked := mkState (result state) true in
  let shown := mkState (Some (onSubmit values)) true in
  let released := mkState (Some (onSubmit values)) false in
  (saved = NeverSettles
   <-> exists client,
         supabase = Some client
         /\ client (utf16 "assessments")
                   [assessmentRow now values score status (Some advice)]
            = Pending)
  /\ (saved = NeverSettles -> states = [locked; shown] /\ log = [])
  /\ (saved <> NeverSettles -> states = [locked; shown; released])
  /\ (supabase = None ->
      saved = Returned None
      /\ log = [console_warn
                  (utf16 "Supabase client is not initialized. Data will not be saved.")])
  /\ (forall data, supabase <> None -> saved = Returned data -> log = [])
  /\ (forall error, saved = Thrown error ->
      log = [ console_error (utf16 "Error saving data to Supabase:") error;
              console_error (utf16 "データの保存に失敗しました:") error ]).
Proof.
  unfold onSubmit_steps.
  destruct (onSubmit values) as [[score status] advice] eqn:E.
  unfold saveAssessmentData.
  destruct supabase as [client|].
  - destruct (client (utf16 "assessments")
                     [assessmentRow now values score status (Some advice)])
      as [e|data [e|]|] eqn:C; cbn [fst snd app isSubmitting result].
    + split; [split; [intros H; discriminate H|]|].
      { intros [c [Hc Hp]]. injection Hc as <-.
        rewrite C in Hp. discriminate Hp. }
      split; [intros H; discriminate H|]. split; [intros _; reflexivity|].
      split; [intros H; discriminate H|].
      split; [intros data _ H; discriminate H|].
      intros error H. injection H as <-. reflexivity.
    + split; [split; [intros H; discriminate H|]|].
      { intros [c [Hc Hp]]. injection Hc as <-.
        rewrite C in Hp. discriminate Hp. }
      split; [intros H; discriminate H|]. split; [intros _; reflexivity|].
      split; [intros H; discriminate H|].
      split; [intros d _ H; discriminate H|].
      intros error H. injection H as <-. reflexivity.
    + split; [split; [intros H; discriminate H|]|].
      { intros [c [Hc Hp]]. injection Hc as <-.
        rewrite C in Hp. discriminate Hp. }
      split; [intros H; discriminate H|]. split; [intros _; reflexivity|].
      split; [intros H; discriminate H|].
      split; [intros d _ _; reflexivity|].
      intros error H. discriminate H.
    + split; [split; [intros _; exists client; split; [reflexivity | exact C]|]|].
      { intros _. reflexivity. }
      split; [intros _; split; reflexivity|].
      split; [intros H; contradiction H; reflexivity|].
      split; [intros H; discriminate H|].
      split; [intros d _ H; discriminate H|].
      intros error H. discriminate H.
  - cbn [fst snd app isSubmitting result].
    split; [split; [intros H; discriminate H|]|].
    { intros [c [Hc _]]. discriminate Hc. }
    split; [intros H; discriminate H|]. split; [intros _; reflexivity|].
    split; [intros _; split; reflexivity|].
    split; [intros data H; contradiction H; reflexivity|].
    intros error H; discriminate H.
Qed.

End Assessment.

(* ================================================================= *)
(** ** The instances meet the hypotheses *)

Lemma asciiLowerUnit_digit (c : N) : isDigit (asciiLowerUnit c) = isDigit c.
Proof.
  unfold asciiLowerUnit, isDigit.
  destruct (N.leb_spec 65 c) as [L1|L1], (N.leb_spec c 90) as [L2|L2];
    cbn [andb]; try reflexivity.
  destruct (N.leb_spec 48 (c + 32)) as [L3|L3],
    (N.leb_spec (c + 32) 57) as [L4|L4],
    (N.leb_spec 48 c) as [L5|L5], (N.leb_spec c 57) as [L6|L6];
    cbn [andb]; try reflexivity; lia.
Qed.

Lemma asciiLowerUnit_fixes_digit (c : N) :
  isDigit c = true -> asciiLowerUnit c = c.
Proof.
  unfold asciiLowerUnit, isDigit. intros H.
  apply andb_true_iff in H as [H1 H2]. apply N.leb_le in H1, H2.
  destruct (N.leb_spec 65 c) as [L1|L1]; cbn [andb]; [lia | reflexivity].
Qed.

Lemma asciiLowerCase_digitRuns (s cur : jsstring) :
  digitRuns cur (asciiLowerCase s) = digitRuns cur s.
Proof.
  revert cur. induction s as [|c r IH]; intros cur; [reflexivity|].
  unfold asciiLowerCase in *. cbn [map digitRuns].
  rewrite asciiLowerUnit_digit. destruct (isDigit c) eqn:E.
  - rewrite asciiLowerUnit_fixes_digit by assumption. apply IH.
  - destruct cur; now rewrite IH.
Qed.

Lemma asciiLowerCase_digits (s : jsstring) :
  digitRuns [] (asciiLowerCase s) = digitRuns [] s.
Proof. apply asciiLowerCase_digitRuns. Qed.

Lemma asciiLowerUnit_caseless (a b : N) :
  isCaseless a = true -> unit_eqb a (asciiLowerUnit b) = unit_eqb a b.
Proof.
  unfold isCaseless, isDigit, asciiLowerUnit, unit_eqb. intros H.
  assert (Ha : (a <= 57 \/ 12352 <= a)%N).
  { apply orb_true_iff in H as [H|H].
    - apply orb_true_iff in H as [H|H];
        apply andb_true_iff in H as [H1 H2]; apply N.leb_le in H1, H2; lia.
    - apply andb_true_iff in H as [H1 H2]. apply N.leb_le in H1, H2. lia. }
  destruct (N.leb_spec 65 b) as [L1|L1], (N.leb_spec b 90) as [L2|L2];
    cbn [andb]; try reflexivity.
  destruct (N.eqb_spec a (b + 32)), (N.eqb_spec a b); try reflexivity; lia.
Qed.

Lemma asciiLowerCase_startsWith (m s : jsstring) :
  forallb isCaseless m = true ->
  startsWith (asciiLowerCase s) m = startsWith s m.
Proof.
  revert s. induction m as [|a m IH]; intros s H; [reflexivity|].
  cbn [forallb] in H. apply andb_true_iff in H as [Ha Hm].
  destruct s as [|b s]; [reflexivity|].
  unfold asciiLowerCase in *. cbn [map startsWith].
  now rewrite asciiLowerUnit_caseless, IH.
Qed.

Lemma asciiLowerCase_caseless (s m : jsstring) :
  forallb isCaseless m = true ->
  includes (asciiLowerCase s) m = includes s m.
Proof.
  intros H. induction s as [|b s IH].
  - reflexivity.
  - change (asciiLowerCase (b :: s)) with (asciiLowerUnit b :: asciiLowerCase s).
    cbn [includes]. rewrite IH.
    change (asciiLowerUnit b :: asciiLowerCase s) with (asciiLowerCase (b :: s)).
    now rewrite asciiLowerCase_startsWith.
Qed.

Lemma noOpen_groupDigits (ds : jsstring) :
  noOpen ds = true -> noOpen (groupDigits ds) = true.
Proof.
  induction ds as [|c r IH]; intros H; [reflexivity|].
  cbn [noOpen forallb] in H. apply andb_true_iff in H as [Hc Hr].
  cbn [groupDigits]. destruct r as [|d r']; [cbn [noOpen forallb]; now rewrite Hc|].
  destruct (List.length (d :: r') mod 3 =? 0)%nat;
    cbn [noOpen forallb]; rewrite Hc; cbn [andb]; apply IH; exact Hr.
Qed.

Lemma groupedDecimal_plain (q : Q) : noOpen (groupedDecimal q) = true.
Proof.
  assert (H : forall z f, noOpen (groupDigits (numberToString z) ++ fractionDigits f)
                          = true).
  { intros z f. rewrite noOpen_app, noOpen_groupDigits
      by apply noOpen_numberToString.
    unfold fractionDigits; cbv zeta. destruct (f =? 0); [reflexivity|].
    cbn [noOpen forallb andb negb unit_eqb]. fold (noOpen).
    change (forallb (fun c => negb (unit_eqb c openBracket))) with noOpen.
    rewrite noOpen_app, noOpen_numberToString.
    destruct ((f / 10) mod 10 =? 0), (f mod 10 =? 0); cbn [andb];
      rewrite ?noOpen_app, ?noOpen_numberToString; reflexivity. }
  unfold groupedDecimal; cbv zeta. destruct (Q_lt q 0); [|apply H].
  cbn [noOpen forallb]. apply H.
Qed.

(* ================================================================= *)
(** ** The theorems at concrete profiles *)

Lemma C1_score_range_witness :
  validInput example1
  /\ (let score := calculateRiskScore asciiLowerCase example1 example1.(savings)
                     example1.(monthlyIncome) example1.(familyCount) in
      40 <= score <= 100
      /\ (score_hasChildren asciiLowerCase example1 = false -> 80 <= score)).
Proof.
  assert (H : validInput example1) by (unfold validInput; cbn; lia).
  split; [exact H | exact (C1_score_range asciiLowerCase example1 H)].
Defined.

Lemma C2_example2_witness :
  score_hasChildren asciiLowerCase example2 = true
  /\ score_childrenCount asciiLowerCase example2 3 = Finite 1
  /\ familyStep true (Finite 1) 3 70 = (-5, 65)
  /\ calculateRiskScore asciiLowerCase example2 1000000 300000 3 = 74
  /\ calculateRiskScore asciiLowerCase example2 1890000 300000 3 = 82.
Proof.
  pose proof (C2_example2 asciiLowerCase asciiLowerCase_digits
                asciiLowerCase_caseless)
    as [H1 [H2 [_ [H3 [_ [_ [H4 [_ [_ H5]]]]]]]]].
  split; [exact H1|]. split; [exact H2|]. split; [exact (H3 70)|].
  split; [exact H4 | exact H5].
Defined.

Lemma C3_round_trip_witness :
  validInput example2
  /\ parseSections (generateAdvice asciiLowerCase groupedDecimal example2
                      example2.(monthlyIncome) example2.(familyCount))
     = map sectionOf (spec_blocks asciiLowerCase groupedDecimal example2
                        example2.(monthlyIncome) example2.(familyCount)).
Proof.
  assert (H : validInput example2) by (unfold validInput; cbn; lia).
  split; [exact H|].
  exact (proj1 (C3_round_trip asciiLowerCase groupedDecimal groupedDecimal_plain
                  example2 H)).
Defined.

Lemma C4_intermediate_bounds_witness :
  validInput richSingle
  /\ 40 <= score_beforeFloor asciiLowerCase richSingle richSingle.(savings)
             richSingle.(monthlyIncome) richSingle.(familyCount) <= 145.
Proof.
  assert (H : validInput richSingle) by (unfold validInput; cbn; lia).
  split; [exact H|].
  exact (proj1 (C4_intermediate_bounds asciiLowerCase richSingle H)).
Defined.

(** C4 as the specification states it fails: on Example 1 (no children) the
    sum before the floor is 69, below 80; on a single profile with every
    bonus it is 145, above 100. *)
Lemma C4_counterexample :
  (validInput example1
   /\ score_hasChildren asciiLowerCase example1 = false
   /\ score_beforeFloor asciiLowerCase example1 example1.(savings)
        example1.(monthlyIncome) example1.(familyCount) = 69
   /\ ~ (80 <= score_beforeFloor asciiLowerCase example1 example1.(savings)
                 example1.(monthlyIncome) example1.(familyCount) <= 100))
  /\ (validInput richSingle
      /\ score_beforeFloor asciiLowerCase richSingle richSingle.(savings)
           richSingle.(monthlyIncome) richSingle.(familyCount) = 145
      /\ ~ (40 <= score_beforeFloor asciiLowerCase richSingle richSingle.(savings)
                    richSingle.(monthlyIncome) richSingle.(familyCount) <= 100)).
Proof.
  assert (E1 : score_beforeFloor asciiLowerCase example1 example1.(savings)
                 example1.(monthlyIncome) example1.(familyCount) = 69)
    by (vm_compute; reflexivity).
  assert (E2 : score_beforeFloor asciiLowerCase richSingle richSingle.(savings)
                 richSingle.(monthlyIncome) richSingle.(familyCount) = 145)
    by (vm_compute; reflexivity).
  rewrite E1, E2. unfold validInput. cbn.
  repeat split; try lia; try reflexivity.
Qed.


Lemma C6_childrenCount_witness :
  score_hasChildren asciiLowerCase example2 = true
  /\ example2.(familyStructure) = utf16 "妻と子" ++ utf16 "1" ++ utf16 "人"
  /\ spec_decimal (utf16 "1") <= 2 ^ 53
  /\ score_childrenCount asciiLowerCase example2 3 = Finite 1
  /\ Math_min 3 (score_childrenCount asciiLowerCase example2 3) = 1.
Proof.
  assert (Hc : score_hasChildren asciiLowerCase example2 = true)
    by (vm_compute; reflexivity).
  assert (Ht : example2.(familyStructure)
               = utf16 "妻と子" ++ utf16 "1" ++ utf16 "人")
    by (vm_compute; reflexivity).
  assert (Hs : spec_decimal (utf16 "1") <= 2 ^ 53)
    by (vm_compute; discriminate).
  assert (H1 : noDigit (utf16 "妻と子") = true) by (vm_compute; reflexivity).
  assert (H2 : utf16 "1" <> []) by (vm_compute; discriminate).
  assert (H3 : forallb isDigit (utf16 "1") = true) by (vm_compute; reflexivity).
  assert (H4 : noDigit (firstn 1 (utf16 "人")) = true)
    by (vm_compute; reflexivity).
  split; [exact Hc|]. split; [exact Ht|]. split; [exact Hs|].
  pose proof (proj1 (C6_childrenCount asciiLowerCase asciiLowerCase_digits
                       asciiLowerCase_caseless example2 3 Hc)
                    (utf16 "妻と子") (utf16 "1") (utf16 "人") Ht H1 H2 H3 H4)
    as [_ [_ [G [_ M]]]].
  split; [exact (G Hs) | exact M].
Defined.

(** C6 as the specification states it fails on long runs: a run of twenty
    nines is parsed as 10^20, which is not the integer the digits denote,
    and a run of 310 nines as Infinity, which is no integer. *)
Lemma C6_counterexample :
  (score_hasChildren asciiLowerCase twentyNines = true
   /\ twentyNines.(familyStructure)
      = utf16 "子" ++ utf16 "99999999999999999999" ++ utf16 "人"
   /\ spec_decimal (utf16 "99999999999999999999") = 99999999999999999999
   /\ score_childrenCount asciiLowerCase twentyNines 2
      = Finite 100000000000000000000
   /\ score_childrenCount asciiLowerCase twentyNines 2
      <> Finite (spec_decimal (utf16 "99999999999999999999")))
  /\ (score_hasChildren asciiLowerCase manyNines = true
      /\ manyNines.(familyStructure)
         = utf16 "子" ++ repeat 57%N 310 ++ utf16 "人"
      /\ forallb isDigit (repeat 57%N 310) = true
      /\ score_childrenCount asciiLowerCase manyNines 2 = Infinity
      /\ (forall n : Z,
            score_childrenCount asciiLowerCase manyNines 2 <> Finite n)).
Proof.
  assert (E1 : score_childrenCount asciiLowerCase twentyNines 2
               = Finite 100000000000000000000) by (vm_compute; reflexivity).
  assert (E2 : score_childrenCount asciiLowerCase manyNines 2 = Infinity)
    by (vm_compute; reflexivity).
  assert (D : spec_decimal (utf16 "99999999999999999999")
              = 99999999999999999999) by (vm_compute; reflexivity).
  rewrite E1, E2, D.
  repeat split; try (vm_compute; reflexivity); try discriminate.
Qed.

Lemma C7_ordering_law_witness :
  validInput example2
  /\ map title (firstn 3 (sortedSections
                  (generateAdvice asciiLowerCase groupedDecimal example2
                     example2.(monthlyIncome) example2.(familyCount))))
     = [encouragementTitle; fundingTitle; incomeTitle].
Proof.
  assert (H : validInput example2) by (unfold validInput; cbn; lia).
  split; [exact H|].
  exact (proj2 (proj2 (C7_ordering_law asciiLowerCase groupedDecimal
                         groupedDecimal_plain example2 H))).
Defined.

Lemma C8_age_section_witness :
  validInput example1
  /\ (getAgeBasedAdvice example1 = [] <-> example1.(age) = 0)
  /\ (getAgeSteps example1 = [] <-> example1.(age) = 0).
Proof.
  assert (H : validInput example1) by (unfold validInput; cbn; lia).
  split; [exact H|].
  pose proof (C8_age_section asciiLowerCase groupedDecimal groupedDecimal_plain
                example1 H) as [_ [H2 [H3 _]]].
  split; [exact H2 | exact H3].
Defined.

Lemma C9_never_considering_witness :
  validInput leastProfile
  /\ score_hasChildren asciiLowerCase leastProfile = true
  /\ calculateRiskScore asciiLowerCase leastProfile leastProfile.(savings)
       leastProfile.(monthlyIncome) leastProfile.(familyCount) = 43.
Proof.
  exact (proj2 (C9_never_considering asciiLowerCase asciiLowerCase_digits
                  asciiLowerCase_caseless)).
Defined.

Lemma C10_age_section_last_witness :
  validInput example2 /\ example2.(age) <> 0
  /\ Forall (fun t => getDisplayOrder t = 99
                      /\ includes t keySpecial = false
                      /\ forallb (fun kv => negb (includes t (fst kv))) orderMap
                         = true)
            ageTitles.
Proof.
  assert (H : validInput example2) by (unfold validInput; cbn; lia).
  assert (H0 : example2.(age) <> 0) by (cbn; lia).
  split; [exact H | split; [exact H0|]].
  exact (proj1 (C10_age_section_last asciiLowerCase groupedDecimal
                  groupedDecimal_plain example2 H H0)).
Defined.

(* ================================================================= *)
(** ** The further properties at concrete profiles *)

Lemma score_monotone_in_savings_witness :
  1 <= 300000 /\ 1 <= 3 /\ 1000000 <= 3000000
  /\ calculateRiskScore asciiLowerCase example2 1000000 300000 3
     <= calculateRiskScore asciiLowerCase example2 3000000 300000 3.
Proof.
  assert (H1 : 1 <= 300000) by lia.
  assert (H2 : 1 <= 3) by lia.
  assert (H3 : 1000000 <= 3000000) by lia.
  split; [exact H1|]. split; [exact H2|]. split; [exact H3|].
  exact (score_monotone_in_savings asciiLowerCase example2 1000000 3000000
           300000 3 H1 H2 H3).
Defined.

Lemma score_antitone_in_age_witness :
  32 <> 0 /\ 55 <> 0 /\ 32 <= 55
  /\ calculateRiskScore asciiLowerCase (withAge example2 55) 1000000 300000 3
     <= calculateRiskScore asciiLowerCase (withAge example2 32) 1000000 300000 3.
Proof.
  assert (H1 : 32 <> 0) by lia.
  assert (H2 : 55 <> 0) by lia.
  assert (H3 : 32 <= 55) by lia.
  split; [exact H1|]. split; [exact H2|]. split; [exact H3|].
  exact (score_antitone_in_age asciiLowerCase example2 32 55 1000000 300000 3
           H1 H2 H3).
Defined.

Lemma score_with_children_witness :
  score_hasChildren asciiLowerCase example2 = true
  /\ calculateRiskScore asciiLowerCase example2 1000000 300000 3
     = Z.min 100 (score_beforeFloor asciiLowerCase example2 1000000 300000 3).
Proof.
  assert (Hc : score_hasChildren asciiLowerCase example2 = true)
    by (vm_compute; reflexivity).
  split; [exact Hc|].
  pose proof (score_with_children asciiLowerCase example2 1000000 300000 3 Hc)
    as [_ [_ H]].
  exact H.
Defined.

Lemma score_antitone_in_children_witness :
  let two := mkForm (utf16 "妻と子2人") 4 false 32 1000000 300000 in
  score_hasChildren asciiLowerCase example2 = true
  /\ score_hasChildren asciiLowerCase two = true
  /\ age example2 = age two
  /\ Number_le (score_childrenCount asciiLowerCase example2 4)
               (score_childrenCount asciiLowerCase two 4)
  /\ calculateRiskScore asciiLowerCase two 1000000 300000 4
     <= calculateRiskScore asciiLowerCase example2 1000000 300000 4.
Proof.
  intros two.
  assert (H1 : score_hasChildren asciiLowerCase example2 = true)
    by (vm_compute; reflexivity).
  assert (H2 : score_hasChildren asciiLowerCase two = true)
    by (vm_compute; reflexivity).
  assert (H3 : age example2 = age two) by reflexivity.
  assert (H4 : Number_le (score_childrenCount asciiLowerCase example2 4)
                         (score_childrenCount asciiLowerCase two 4))
    by (vm_compute; discriminate).
  split; [exact H1|]. split; [exact H2|]. split; [exact H3|].
  split; [exact H4|].
  exact (proj1 (score_antitone_in_children asciiLowerCase example2 two
                  1000000 300000 4 H1 H2 H3) H4).
Defined.

Lemma no_children_top_status_witness :
  score_hasChildren asciiLowerCase example1 = false
  /\ 80 <= calculateRiskScore asciiLowerCase example1 0 300000 1 <= 100.
Proof.
  assert (Hc : score_hasChildren asciiLowerCase example1 = false)
    by (vm_compute; reflexivity).
  split; [exact Hc|].
  pose proof (no_children_top_status asciiLowerCase example1 0 300000 1 Hc)
    as [H _].
  exact H.
Defined.

Lemma scaledScore_saturation_witness :
  1 <= 500000 /\ 1 <= 1 /\ 3 * (500000 * 1) <= 6000000
  /\ score_hasChildren asciiLowerCase richSingle = false
  /\ scaledScoreOf 6000000 500000 1 = 100
  /\ calculateRiskScore asciiLowerCase richSingle 6000000 500000 1 = 100.
Proof.
  assert (H1 : 1 <= 500000) by lia.
  assert (H2 : 1 <= 1) by lia.
  assert (H3 : 3 * (500000 * 1) <= 6000000) by lia.
  assert (H4 : score_hasChildren asciiLowerCase richSingle = false)
    by (vm_compute; reflexivity).
  split; [exact H1|]. split; [exact H2|]. split; [exact H3|].
  split; [exact H4|].
  pose proof (scaledScore_saturation asciiLowerCase richSingle 6000000 500000 1
                H1 H2) as [H _].
  destruct (H H3) as [F G]. split; [exact F | exact (G H4)].
Defined.



Lemma actionSteps_numbering_witness :
  let steps := allSteps example2 true medium in
  nth_error steps 0 = Some (nth 0 steps [])
  /\ nth_error (numberSteps 0 steps) 0
     = Some (numberToString (Z.of_nat 0 + 1) ++ utf16 ". " ++ nth 0 steps []).
Proof.
  intros steps.
  assert (H : nth_error steps 0 = Some (nth 0 steps []))
    by (vm_compute; reflexivity).
  split; [exact H|].
  exact (proj1 (actionSteps_numbering example2 true medium 0%nat
                  (nth 0 steps []) H)).
Defined.


Lemma parse_without_marker_witness :
  noOpen (utf16 "資金目標") = true
  /\ parseSections (utf16 "資金目標") = []
  /\ renderAdviceSection (utf16 "資金目標") = [].
Proof.
  assert (H : noOpen (utf16 "資金目標") = true) by (vm_compute; reflexivity).
  split; [exact H|].
  pose proof (parse_without_marker (utf16 "資金目標") H) as [_ [H1 [_ H2]]].
  split; [exact H1 | exact H2].
Defined.

Lemma leading_text_shifts_pairs_witness :
  let pre := utf16 "資金目標" in
  pre <> [] /\ noOpen pre = true
  /\ forallb goodSegment [(fundingTitle, stepsTitle)] = true
  /\ parseSections (pre ++ renderSegments [(fundingTitle, stepsTitle)])
     = mkSection pre (trim fundingTitle)
       :: formatSections
            (stepsTitle :: flat_map (fun ts => [fst ts; snd ts]) []).
Proof.
  intros pre.
  assert (H1 : pre <> []) by (vm_compute; discriminate).
  assert (H2 : noOpen pre = true) by (vm_compute; reflexivity).
  assert (H3 : forallb goodSegment [(fundingTitle, stepsTitle)] = true)
    by (vm_compute; reflexivity).
  split; [exact H1|]. split; [exact H2|]. split; [exact H3|].
  exact (leading_text_shifts_pairs pre fundingTitle stepsTitle [] H1 H2 H3).
Defined.

Lemma parsed_sections_shape_witness :
  let advice := utf16 "【資金目標】具体的な行動ステップ" in
  let s := mkSection (utf16 "資金目標") (utf16 "具体的な行動ステップ") in
  (In s (parseSections advice) \/ In s (sortedSections advice))
  /\ title s <> [] /\ trim (content s) = content s.
Proof.
  intros advice s.
  assert (H : In s (parseSections advice) \/ In s (sortedSections advice))
    by (left; vm_compute; left; reflexivity).
  split; [exact H|].
  exact (parsed_sections_shape advice s H).
Defined.


Lemma submitted_row_witness :
  let now := utf16 "2025-01-01T00:00:00.000Z" in
  row_advice (assessmentRow now example2
                (calculateRiskScore asciiLowerCase example2 example2.(savings)
                   example2.(monthlyIncome) example2.(familyCount))
                (getRiskStatus
                   (calculateRiskScore asciiLowerCase example2
                      example2.(savings) example2.(monthlyIncome)
                      example2.(familyCount)))
                (Some (generateAdvice asciiLowerCase groupedDecimal example2
                         example2.(monthlyIncome) example2.(familyCount))))
  = Some (generateAdvice asciiLowerCase groupedDecimal example2
            example2.(monthlyIncome) example2.(familyCount)).
Proof.
  intros now.
  pose proof (submitted_row asciiLowerCase groupedDecimal groupedDecimal_plain
                now example2) as H.
  unfold onSubmit in H. cbv zeta in H. destruct H as [_ H].
  rewrite H. reflexivity.
Defined.

Lemma submit_settles_with_store_witness :
  let now := utf16 "2025-01-01T00:00:00.000Z" in
  let failing : Client unit nat := fun _ _ => Rejected unit nat 7%nat in
  let pending : Client unit nat := fun _ _ => Pending unit nat in
  snd (onSubmit_steps asciiLowerCase groupedDecimal unit nat (Some failing)
         now example2 (mkState None false))
  = [ console_error nat (utf16 "Error saving data to Supabase:") 7%nat;
      console_error nat (utf16 "データの保存に失敗しました:") 7%nat ]
  /\ fst (onSubmit_steps asciiLowerCase groupedDecimal unit nat (Some failing)
            now example2 (mkState None false))
     = [ mkState None true;
         mkState (Some (onSubmit asciiLowerCase groupedDecimal example2)) true;
         mkState (Some (onSubmit asciiLowerCase groupedDecimal example2)) false ]
  /\ fst (onSubmit_steps asciiLowerCase groupedDecimal unit nat (Some pending)
            now example2 (mkState None false))
     = [ mkState None true;
         mkState (Some (onSubmit asciiLowerCase groupedDecimal example2)) true ].
Proof.
  intros now failing pending.
  pose proof (submit_settles_with_store asciiLowerCase groupedDecimal unit nat
                (Some failing) now example2 (mkState None false)) as H.
  pose proof (submit_settles_with_store asciiLowerCase groupedDecimal unit nat
                (Some pending) now example2 (mkState None false)) as P.
  destruct (onSubmit_steps asciiLowerCase groupedDecimal unit nat
              (Some failing) now example2 (mkState None false))
    as [states log].
  destruct (onSubmit_steps asciiLowerCase groupedDecimal unit nat
              (Some pending) now example2 (mkState None false))
    as [states' log'].
  destruct (onSubmit asciiLowerCase groupedDecimal example2)
    as [[score status] advice].
  destruct H as [_ [_ [H1 [_ [_ H2]]]]]. destruct P as [_ [P1 _]].
  cbn [fst snd]. split; [apply H2; reflexivity|].
  split; [apply H1; discriminate|].
  apply P1. reflexivity.
Defined.
